(** * ML jobs crawler: crawl-run orchestration, shallow embedding

    The repository holds two variants of the Express server:

    - [ServerJs] embeds [src/server.js]: runs carry a [mode], push the
      full run snapshot to every attached client on each update, keep a
      capped log and (in advanced mode) ask an LLM for fit scores;
    - [Part000] embeds [src/unnamed/part_000]: sessions carry an
      [advancedMode] flag, buffer typed events that a polling stream
      replays, and (in advanced mode) ask an LLM for a ranking of ids.

    An [async] function runs synchronously up to its next suspension on
    I/O or on a timer.  Each variant is therefore embedded as a machine
    whose state is the run object together with the continuation of the
    task ([Task]: where it is suspended and its live local variables),
    and whose steps are the synchronous turns between two suspensions.
    What the outside world answers (a fetcher's result, the LLM reply, a
    timer, a client attaching) is the input of a turn. *)

From Stdlib Require Import ZArith List String Ascii Lia Bool DecimalString.
From Stdlib Require Import Sorted Permutation.
From stdpp Require Import base option list gmap strings.
Import ListNotations.

#[local] Open Scope string_scope.
#[local] Open Scope list_scope.
Set Warnings "-clear-no-such-hyp".

(** ** The JavaScript runtime pieces both variants use *)

(** [String.prototype.toLowerCase] and [String.prototype.localeCompare]
    depend on the Unicode tables and the host locale: they are taken as
    an interface of the runtime. *)
Class JsRuntime := {
  toLowerCase : string -> string;
  localeCompare : string -> string -> Z
}.

(** A runtime for closed examples: ASCII letters are folded to lower case
    and strings are compared by code unit, which is what both methods do
    on lower-case ASCII words. *)
Definition ascii_lower (c : ascii) : ascii :=
  let n := nat_of_ascii c in
  if (65 <=? n)%nat && (n <=? 90)%nat then ascii_of_nat (n + 32) else c.

Fixpoint lower_ascii_string (s : string) : string :=
  match s with
  | EmptyString => EmptyString
  | String c s' => String (ascii_lower c) (lower_ascii_string s')
  end.

Definition codeunit_compare (a b : string) : Z :=
  match String.compare a b with
  | Lt => (-1)%Z
  | Eq => 0%Z
  | Gt => 1%Z
  end.

Definition ascii_runtime : JsRuntime :=
  {| toLowerCase := lower_ascii_string; localeCompare := codeunit_compare |}.

(** Template-literal rendering of a length ([`${jobs.length}`]). *)
Definition show_nat (n : nat) : string :=
  NilEmpty.string_of_uint (Nat.to_uint n).

(** [String.prototype.includes]. *)
Fixpoint includes (haystack needle : string) : bool :=
  match haystack with
  | EmptyString => String.prefix needle haystack
  | String _ rest => String.prefix needle haystack || includes rest needle
  end.

(** [Array.prototype.sort] with a comparator.  The sort is stable: an
    element moves in front of a later one only when the comparator is
    positive on the pair.  Built by insertion from the right, the head
    is placed before the first element it does not have to follow. *)
Section StableSort.
Context {A : Type} (cmp : A -> A -> Z).

Fixpoint sort_insert (x : A) (l : list A) : list A :=
  match l with
  | [] => [x]
  | y :: rest => if (cmp x y <=? 0)%Z then x :: l else y :: sort_insert x rest
  end.

Definition js_sort (l : list A) : list A := foldr sort_insert [] l.

End StableSort.

(** How a source fetcher, awaited inside [try], settles. *)
Inductive Settled (A : Type) :=
  | Returned (jobs : list A)
  | Threw (message : string).
Arguments Returned {A} jobs.
Arguments Threw {A} message.

(** What a settled fetcher adds to [allJobs]. *)
Definition got {A : Type} (r : Settled A) : list A :=
  match r with
  | Returned found => found
  | Threw _ => []
  end.

(** What an HTTP handler answers. *)
Inductive Reply :=
  | ReplyError (code : nat) (error : string)
  | ReplyAccepted (code : nat) (runId : string)
  | ReplyEventStream.

(** ** [src/server.js] *)
Module ServerJs.

Record Job := mkJob {
  title : string;
  company : string;
  location : string;
  source : string;
  url : string;
  postedAt : option string;
  summary : string;
  (* absent until the LLM step; [Some None] is JavaScript's [null] *)
  fitScore : option (option Z);
  rationale : option string
}.

Record LogEntry := mkLog { at_ : string; message : string }.

Inductive Status := running | completed | failed.

(** The object [pushUpdate] serialises; a message on the wire is
    [data: JSON(payload)], identified here with the payload. *)
Record Payload := mkPayload {
  p_id : string;
  p_mode : string;
  p_status : Status;
  p_progress : Z;
  p_stage : string;
  p_logs : list LogEntry;
  p_jobs : list Job;
  p_updatedAt : string
}.

(** An HTTP response held in [run.clients]: what was written to it and
    whether the server ended it. *)
Record Client := mkClient {
  cid : nat;
  written : list Payload;
  ended : bool
}.

Record Run := mkRun {
  id : string;
  mode : string;
  createdAt : string;
  status : Status;
  progress : Z;
  stage : string;
  logs : list LogEntry;
  jobs : list Job;
  clients : list Client
}.

Definition set_status (s : Status) (r : Run) : Run :=
  mkRun (id r) (mode r) (createdAt r) s (progress r) (stage r) (logs r) (jobs r) (clients r).
Definition set_progress (p : Z) (r : Run) : Run :=
  mkRun (id r) (mode r) (createdAt r) (status r) p (stage r) (logs r) (jobs r) (clients r).
Definition set_stage (s : string) (r : Run) : Run :=
  mkRun (id r) (mode r) (createdAt r) (status r) (progress r) s (logs r) (jobs r) (clients r).
Definition set_logs (l : list LogEntry) (r : Run) : Run :=
  mkRun (id r) (mode r) (createdAt r) (status r) (progress r) (stage r) l (jobs r) (clients r).
Definition set_jobs (j : list Job) (r : Run) : Run :=
  mkRun (id r) (mode r) (createdAt r) (status r) (progress r) (stage r) (logs r) j (clients r).
Definition set_clients (c : list Client) (r : Run) : Run :=
  mkRun (id r) (mode r) (createdAt r) (status r) (progress r) (stage r) (logs r) (jobs r) c.

(** [createRun]: the identifier (clock and random digits) and the clock
    reading are supplied by the caller. *)
Definition createRun (new_id now mode : string) : Run :=
  mkRun new_id mode now running 0 "Queued" [] [] [].

Definition snapshot (now : string) (r : Run) : Payload :=
  mkPayload (id r) (mode r) (status r) (progress r) (stage r) (logs r) (jobs r) now.

Definition res_write (msg : Payload) (c : Client) : Client :=
  mkClient (cid c) (written c ++ [msg]) (ended c).

(** [pushUpdate(run)]: every call site passes no patch. *)
Definition pushUpdate (now : string) (r : Run) : Run :=
  set_clients (map (res_write (snapshot now r)) (clients r)) r.

(** [addLog]: push, then drop the oldest entry when over 150. *)
Definition addLog (now : string) (msg : string) (r : Run) : Run :=
  let pushed := logs r ++ [mkLog now msg] in
  let kept := if (150 <? length pushed)%nat then drop 1 pushed else pushed in
  pushUpdate now (set_logs kept r).

Section WithRuntime.
Context `{JsRuntime}.

Definition dedupe_key (job : Job) : string :=
  toLowerCase (title job +:+ "|" +:+ company job +:+ "|" +:+ url job).

(** [dedupeJobs]: [filter] whose callback threads the [seen] set. *)
Fixpoint dedupe_from (seen : gset string) (jobs : list Job) : list Job :=
  match jobs with
  | [] => []
  | job :: rest =>
      if decide (dedupe_key job ∈ seen) then dedupe_from seen rest
      else job :: dedupe_from ({[dedupe_key job]} ∪ seen) rest
  end.

Definition dedupeJobs (jobs : list Job) : list Job := dedupe_from ∅ jobs.

Definition by_title (a b : Job) : Z := localeCompare (title a) (title b).

End WithRuntime.

(** The [sources] table of [runStandardCrawl]; [scanning] is the first
    log line each fetcher writes before it suspends on [fetch]. *)
Record Source := mkSource { label : string; scanning : string }.

Definition sources : list Source :=
  [ mkSource "RemoteOK" "Scanning RemoteOK API…";
    mkSource "WeWorkRemotely" "Scanning WeWorkRemotely jobs feed…" ].

Definition graphStages : list string :=
  [ "Plan search strategy";
    "Collect candidate ML jobs";
    "Enrich with role-level reasoning";
    "Score and summarize opportunities" ].

(** [Math.floor((i / n) * band)] for the small exact values involved. *)
Definition band_progress (i n : nat) (band : Z) : Z :=
  (Z.of_nat i * band / Z.of_nat n)%Z.

(** One element of the array the LLM returns: [fitScore] is read through
    [Number(...)], [None] standing for a value that is not a number;
    [rationale] is the text after [|| ""]. *)
Record Insight := mkInsight {
  i_url : string;
  i_fitScore : option Z;
  i_rationale : string
}.

Inductive LlmReply :=
  | LlmThrew (message : string)
  | LlmInsights (insights : list Insight).

(** [new Map(insights.map(x => [x.url, x]))]: a later entry replaces an
    earlier one with the same url. *)
Definition insightMap (insights : list Insight) : gmap string Insight :=
  fold_left (fun m x => <[i_url x := x]> m) insights ∅.

(** [Number(extra.fitScore) || null]. *)
Definition score_or_null (v : option Z) : option Z :=
  match v with
  | Some n => if (n =? 0)%Z then None else Some n
  | None => None
  end.

Definition annotate (m : gmap string Insight) (job : Job) : Job :=
  match m !! url job with
  | None => job
  | Some extra =>
      mkJob (title job) (company job) (location job) (source job) (url job)
            (postedAt job) (summary job)
            (Some (score_or_null (i_fitScore extra)))
            (Some (i_rationale extra))
  end.

(** [job.fitScore || 0]. *)
Definition fit_or_zero (job : Job) : Z :=
  match fitScore job with
  | Some (Some n) => n
  | _ => 0%Z
  end.

Definition by_fit_desc (a b : Job) : Z := (fit_or_zero b - fit_or_zero a)%Z.

(** Where [startRun] is suspended. *)
Inductive Pc :=
  | AwaitStage (i : nat)     (* the 350 ms timer after graph stage [i] *)
  | AwaitSource (i : nat)    (* the fetch of source [i] *)
  | AwaitLLM                 (* the chat-completion call *)
  | Finished.

(** Which function called [runStandardCrawl]. *)
Inductive Caller := FromStartRun | FromLangGraph.

Record Task := mkTask {
  pc : Pc;
  caller : Caller;
  allJobs : list Job;
  token : string
}.

(** The tail of [startRun]'s [try] block. *)
Definition complete (now : string) (t : Task) (r : Run) : Task * Run :=
  (mkTask Finished (caller t) (allJobs t) (token t),
   pushUpdate now (set_status completed (set_progress 100 (set_stage "Completed" r)))).

(** [startRun]'s [catch]. *)
Definition fail_run (now : string) (msg : string) (t : Task) (r : Run) : Task * Run :=
  (mkTask Finished (caller t) (allJobs t) (token t),
   pushUpdate now (addLog now msg (set_stage "Failed" (set_status failed r)))).

(** [runLangGraphResearch] after [await runStandardCrawl(run)], up to
    the LLM call. *)
Definition after_crawl (now : string) (t : Task) (r : Run) : Task * Run :=
  let r1 := pushUpdate now (set_progress 95 (set_stage "Advanced pipeline: LLM synthesis" r)) in
  match take 15 (jobs r1) with
  | [] => complete now t (addLog now "No jobs available for LLM synthesis." r1)
  | _ :: _ => (mkTask AwaitLLM (caller t) (allJobs t) (token t), r1)
  end.

Section WithRuntime.
Context `{JsRuntime}.

(** [runStandardCrawl] once the loop over the sources is over. *)
Definition finish_crawl (now : string) (t : Task) (r : Run) : Task * Run :=
  let r1 :=
    pushUpdate now
      (set_jobs (js_sort by_title (dedupeJobs (allJobs t)))
         (set_progress 90 (set_stage "Deduplicating and ranking results" r))) in
  match caller t with
  | FromStartRun => complete now t r1
  | FromLangGraph => after_crawl now t r1
  end.

(** Iteration [i] of the loop of [runStandardCrawl], up to the fetch. *)
Definition enter_source (now : string) (i : nat) (t : Task) (r : Run) : Task * Run :=
  match sources !! i with
  | Some src =>
      let r1 :=
        pushUpdate now
          (set_progress (band_progress i (length sources) 80)
             (set_stage ("Crawling " +:+ label src) r)) in
      (mkTask (AwaitSource i) (caller t) (allJobs t) (token t),
       addLog now (scanning src) r1)
  | None => finish_crawl now t r
  end.

(** Iteration [i] of the stage loop of [runLangGraphResearch]. *)
Definition enter_stage (now : string) (i : nat) (t : Task) (r : Run) : Task * Run :=
  match graphStages !! i with
  | Some name =>
      (mkTask (AwaitStage i) (caller t) (allJobs t) (token t),
       pushUpdate now
         (set_progress (band_progress i (length graphStages) 40)
            (set_stage ("Advanced pipeline: " +:+ name) r)))
  | None => enter_source now 0 (mkTask (pc t) FromLangGraph (allJobs t) (token t)) r
  end.

(** [startRun(run, llmToken)] up to its first suspension. *)
Definition startRun (now : string) (r : Run) (llmToken : string) : Task * Run :=
  let t := mkTask Finished FromStartRun [] llmToken in
  let r1 := addLog now ("Starting " +:+ mode r +:+ " crawl…") r in
  if decide (mode r = "advanced") then
    if decide (llmToken = "") then fail_run now "Advanced mode requires llmToken." t r1
    else
      enter_stage now 0 t
        (addLog now "Advanced mode selected: initializing LangGraph-style research pipeline." r1)
  else enter_source now 0 t r1.

(** What resumes or touches a run between two turns. *)
Inductive Event :=
  | TimerFired
  | SourceSettled (result : Settled Job)
  | LlmSettled (result : LlmReply)
  | ClientAttached (c : nat)
  | ClientClosed (c : nat).

(** [run.clients.add(res); pushUpdate(run)] of the events route. *)
Definition attach (now : string) (c : nat) (r : Run) : Run :=
  let known := existsb (fun k => Nat.eqb (cid k) c) (clients r) in
  let cs := if known then clients r else clients r ++ [mkClient c [] false] in
  pushUpdate now (set_clients cs r).

(** [run.clients.delete(res)] of the [close] handler. *)
Definition detach (c : nat) (r : Run) : Run :=
  set_clients (filter (fun k => cid k ≠ c) (clients r)) r.

Definition source_label (i : nat) : string :=
  match sources !! i with Some src => label src | None => "" end.

(** One turn of the run: the event is delivered at clock reading [now].
    An event the task is not waiting for leaves everything as it is. *)
Definition deliver (now : string) (ev : Event) (s : Task * Run) : Task * Run :=
  let '(t, r) := s in
  match ev, pc t with
  | TimerFired, AwaitStage i => enter_stage now (S i) t r
  | SourceSettled (Returned found), AwaitSource i =>
      let r1 :=
        addLog now
          (source_label i +:+ ": found " +:+ show_nat (length found) +:+ " matching ML roles.") r in
      enter_source now (S i) (mkTask (pc t) (caller t) (allJobs t ++ found) (token t)) r1
  | SourceSettled (Threw msg), AwaitSource i =>
      enter_source now (S i) t (addLog now (source_label i +:+ " failed: " +:+ msg) r)
  | LlmSettled (LlmInsights insights), AwaitLLM =>
      let scored := js_sort by_fit_desc (map (annotate (insightMap insights)) (jobs r)) in
      complete now t
        (addLog now "LLM synthesis complete: jobs scored with fitScore and rationale."
           (set_jobs scored r))
  | LlmSettled (LlmThrew msg), AwaitLLM =>
      complete now t (addLog now ("LLM synthesis skipped: " +:+ msg) r)
  | ClientAttached c, _ => (t, attach now c r)
  | ClientClosed c, _ => (t, detach c r)
  | _, _ => s
  end.

(** A schedule is the list of events with the clock reading of each. *)
Definition run_events (evs : list (string * Event)) (s : Task * Run) : Task * Run :=
  fold_left (fun st e => deliver (fst e) (snd e) st) evs s.

End WithRuntime.

(** [const { mode = "standard", llmToken = "" } = req.body || {}]. *)
Record StartBody := mkStartBody {
  b_mode : option string;
  b_llmToken : option string
}.

Section WithRuntime.
Context `{JsRuntime}.

(** [POST /api/crawl/start].  Besides the reply and the registry, the
    task [startRun] left suspended is returned ([None] when no run was
    created). *)
Definition post_start (new_id now : string) (body : StartBody)
    (crawlRuns : gmap string Run) : Reply * gmap string Run * option Task :=
  let mode := default "standard" (b_mode body) in
  let llmToken := default "" (b_llmToken body) in
  if negb (bool_decide (mode ∈ ["standard"; "advanced"])) then
    (ReplyError 400 "mode must be either 'standard' or 'advanced'.", crawlRuns, None)
  else
    let '(t, r) := startRun now (createRun new_id now mode) llmToken in
    (ReplyAccepted 202 new_id, <[new_id := r]> crawlRuns, Some t).

(** [GET /api/crawl/events/:runId]; [c] names the new response. *)
Definition get_events (runId now : string) (c : nat)
    (crawlRuns : gmap string Run) : Reply * gmap string Run :=
  match crawlRuns !! runId with
  | None => (ReplyError 404 "Run not found", crawlRuns)
  | Some r => (ReplyEventStream, <[runId := attach now c r]> crawlRuns)
  end.

End WithRuntime.

(** [ML_KEYWORDS] and [containsMLKeyword], the filter both fetchers
    apply to the text of a posting. *)
Definition ML_KEYWORDS : list string :=
  [ "machine learning"; "ml"; "deep learning"; "nlp"; "computer vision";
    "llm"; "ai engineer"; "data scientist"; "applied scientist";
    "research scientist" ].

Definition containsMLKeyword `{JsRuntime} (text : string) : bool :=
  existsb (fun keyword => includes (toLowerCase text) keyword) ML_KEYWORDS.

(** [GET /api/crawl/:runId]: the fields of the run the route sends, or
    404. *)
Record RunView := mkRunView {
  v_id : string;
  v_mode : string;
  v_status : Status;
  v_progress : Z;
  v_stage : string;
  v_jobs : list Job;
  v_logs : list LogEntry
}.

Definition get_run (runId : string) (crawlRuns : gmap string Run)
    : Reply + RunView :=
  match crawlRuns !! runId with
  | None => inl (ReplyError 404 "Run not found")
  | Some r =>
      inr (mkRunView (id r) (mode r) (status r) (progress r) (stage r) (jobs r) (logs r))
  end.

End ServerJs.

(** ** [src/unnamed/part_000] *)
Module Part000.

Record Job := mkJob {
  id : string;
  source : string;
  title : string;
  company : string;
  location : string;
  url : string;
  publishedAt : option string;
  description : string
}.

(** The four shapes [pushEvent] is called with. *)
Inductive EventBody :=
  | EvProgress (progress : Z) (stage : string)
  | EvLog (message : string)
  | EvDone (progress : Z) (stage : string) (totalJobs : nat)
  | EvError (message : string).

Record Event := mkEvent { timestamp : string; body : EventBody }.

Inductive Status := running | completed | failed.

Record Session := mkSession {
  s_id : string;
  advancedMode : bool;
  status : Status;
  progress : Z;
  stage : string;
  events : list Event;
  jobs : list Job;
  error : option string;
  startedAt : string;
  finishedAt : option string
}.

Definition set_status (v : Status) (s : Session) : Session :=
  mkSession (s_id s) (advancedMode s) v (progress s) (stage s) (events s) (jobs s)
            (error s) (startedAt s) (finishedAt s).
Definition set_progress (v : Z) (s : Session) : Session :=
  mkSession (s_id s) (advancedMode s) (status s) v (stage s) (events s) (jobs s)
            (error s) (startedAt s) (finishedAt s).
Definition set_stage (v : string) (s : Session) : Session :=
  mkSession (s_id s) (advancedMode s) (status s) (progress s) v (events s) (jobs s)
            (error s) (startedAt s) (finishedAt s).
Definition set_events (v : list Event) (s : Session) : Session :=
  mkSession (s_id s) (advancedMode s) (status s) (progress s) (stage s) v (jobs s)
            (error s) (startedAt s) (finishedAt s).
Definition set_jobs (v : list Job) (s : Session) : Session :=
  mkSession (s_id s) (advancedMode s) (status s) (progress s) (stage s) (events s) v
            (error s) (startedAt s) (finishedAt s).
Definition set_finishedAt (v : option string) (s : Session) : Session :=
  mkSession (s_id s) (advancedMode s) (status s) (progress s) (stage s) (events s) (jobs s)
            (error s) (startedAt s) v.

Definition createSession (new_id now : string) (advanced : bool) : Session :=
  mkSession new_id advanced running 0 "Queued" [] [] None now None.

(** [pushEvent]: the event is stamped and appended; nothing is dropped. *)
Definition pushEvent (now : string) (ev : EventBody) (s : Session) : Session :=
  set_events (events s ++ [mkEvent now ev]) s.

Definition SEARCH_KEYWORDS : list string :=
  [ "machine learning"; "ml"; "ai"; "deep learning"; "data scientist";
    "llm"; "nlp"; "computer vision" ].

Definition source_names : list string := [ "Remotive"; "Arbeitnow" ].

Definition graphSteps : list string :=
  [ "build_search_hypothesis"; "cluster_roles"; "rank_relevance"; "summarize_market" ].

(** [state.notes] after the loop over [graphSteps]. *)
Definition graph_notes : list string :=
  map (fun step => "LangGraph node executed: " +:+ step) graphSteps.

(** [Math.round((i / n) * 60) + 10]: rounding to nearest, halves up. *)
Definition crawl_progress (i n : nat) : Z :=
  ((2 * (Z.of_nat i * 60) + Z.of_nat n) / (2 * Z.of_nat n) + 10)%Z.

Section WithRuntime.
Context `{JsRuntime}.

Definition isMLJob (job : Job) : bool :=
  let haystack :=
    toLowerCase (title job +:+ " " +:+ description job +:+ " " +:+ location job) in
  existsb (fun keyword => includes haystack keyword) SEARCH_KEYWORDS.

Definition dedupe_key (job : Job) : string :=
  toLowerCase (title job) +:+ "-" +:+ toLowerCase (company job).

(** [acc[key]] on the accumulator object.  Own string keys are listed
    by [Object.values] in insertion order, so the object is kept as an
    association list.  Every key holds a hyphen: none is an array index
    (listed first) or a name inherited from [Object.prototype]. *)
Fixpoint acc_get (key : string) (acc : list (string * Job)) : option Job :=
  match acc with
  | [] => None
  | (k, v) :: rest => if decide (k = key) then Some v else acc_get key rest
  end.

(** The callback of [mlJobs.reduce]. *)
Definition dedupe_step (acc : list (string * Job)) (job : Job) : list (string * Job) :=
  match acc_get (dedupe_key job) acc with
  | Some _ => acc
  | None => acc ++ [(dedupe_key job, job)]
  end.

Definition dedupe (mlJobs : list Job) : list Job :=
  map snd (fold_left dedupe_step mlJobs []).

End WithRuntime.

(** What the chat-completion call of [runAdvancedDeepResearch] comes to:
    anything caught by its [catch] (network failure, non-2xx status, a
    body [JSON.parse] rejects, a [rankedIds] that is no array), or the
    parsed [rankedIds] (after [|| []]) and [summary] ([""] when absent). *)
Inductive LlmReply :=
  | LlmThrew (message : string)
  | LlmParsed (rankedIds : list string) (summary : string).

Record Advanced := mkAdvanced { a_jobs : list Job; a_notes : list string }.

(** [jobs.find((job) => job.id === id)]. *)
Definition find_by_id (jobs : list Job) (wanted : string) : option Job :=
  List.find (fun job => bool_decide (id job = wanted)) jobs.

(** [rankedIds.map(find).filter(Boolean)]. *)
Definition ranked_of (jobs : list Job) (rankedIds : list string) : list Job :=
  omap (find_by_id jobs) rankedIds.

Definition remainder_of (jobs ranked : list Job) : list Job :=
  List.filter
    (fun job => negb (existsb (fun rJob => bool_decide (id rJob = id job)) ranked))
    jobs.

(** The three [return] statements of [runAdvancedDeepResearch]. *)
Definition research_without_token (jobs : list Job) : Advanced :=
  mkAdvanced (take 30 jobs)
    (graph_notes ++ ["No LLM API token provided. Returned heuristic ranking only."]).

Definition research_settled (jobs : list Job) (reply : LlmReply) : Advanced :=
  match reply with
  | LlmParsed rankedIds summary =>
      let ranked := ranked_of jobs rankedIds in
      let remainder := remainder_of jobs ranked in
      mkAdvanced (take 30 (ranked ++ remainder))
        (graph_notes ++ [if decide (summary = "") then "LLM ranking completed." else summary])
  | LlmThrew msg =>
      mkAdvanced (take 30 jobs) (graph_notes ++ ["LLM ranking failed: " +:+ msg])
  end.

(** Where [runCrawl] is suspended. *)
Inductive Pc :=
  | AwaitSource (i : nat)
  | AwaitLLM
  | Finished.

Record Task := mkTask {
  pc : Pc;
  allJobs : list Job;
  llmToken : string;
  deduped : list Job
}.

(** [runCrawl] from [session.jobs = finalJobs.slice(0, 50)] on. *)
Definition finalize (now : string) (finalJobs : list Job) (t : Task) (s : Session)
    : Task * Session :=
  let s1 :=
    set_finishedAt (Some now)
      (set_status completed
         (set_progress 100 (set_stage "Completed" (set_jobs (take 50 finalJobs) s)))) in
  (mkTask Finished (allJobs t) (llmToken t) (deduped t),
   pushEvent now (EvDone 100 (stage s1) (length (jobs s1))) s1).

(** [runCrawl] once [runAdvancedDeepResearch] has returned. *)
Definition finish_advanced (now : string) (result : Advanced) (t : Task) (s : Session)
    : Task * Session :=
  finalize now (a_jobs result) t
    (pushEvent now (EvLog (String.concat " | " (a_notes result))) s).

Section WithRuntime.
Context `{JsRuntime}.

(** [runCrawl] after the loop over the sources. *)
Definition after_sources (now : string) (t : Task) (s : Session) : Task * Session :=
  let s1 := set_progress 75 (set_stage "Filtering ML jobs" s) in
  let s2 := pushEvent now (EvProgress (progress s1) (stage s1)) s1 in
  let mlJobs := List.filter isMLJob (allJobs t) in
  let uniq := dedupe mlJobs in
  let t1 := mkTask (pc t) (allJobs t) (llmToken t) uniq in
  if advancedMode s2 then
    let s3 := set_progress 88 (set_stage "Advanced mode: LangGraph deep research" s2) in
    let s4 := pushEvent now (EvProgress (progress s3) (stage s3)) s3 in
    if decide (llmToken t = "") then finish_advanced now (research_without_token uniq) t1 s4
    else (mkTask AwaitLLM (allJobs t) (llmToken t) uniq, s4)
  else finalize now uniq t1 s2.

(** Iteration [i] of the loop over the sources, up to the fetch. *)
Definition enter_source (now : string) (i : nat) (t : Task) (s : Session) : Task * Session :=
  match source_names !! i with
  | Some name =>
      let s1 :=
        set_progress (crawl_progress i (length source_names))
          (set_stage ("Crawling " +:+ name) s) in
      (mkTask (AwaitSource i) (allJobs t) (llmToken t) (deduped t),
       pushEvent now (EvProgress (progress s1) (stage s1)) s1)
  | None => after_sources now t s
  end.

(** [runCrawl(session, llmToken)] up to its first suspension. *)
Definition runCrawl (now : string) (s : Session) (token : string) : Task * Session :=
  enter_source now 0 (mkTask Finished [] token []) s.

Inductive Resume :=
  | SourceSettled (result : Settled Job)
  | LlmSettled (result : LlmReply).

Definition source_name (i : nat) : string := default "" (source_names !! i).

(** One turn of the run; an answer the task is not waiting for leaves
    everything as it is. *)
Definition deliver (now : string) (ev : Resume) (st : Task * Session) : Task * Session :=
  let '(t, s) := st in
  match ev, pc t with
  | SourceSettled (Returned sourceJobs), AwaitSource i =>
      let s1 :=
        pushEvent now
          (EvLog ("Collected " +:+ show_nat (length sourceJobs) +:+ " jobs from "
                  +:+ source_name i)) s in
      enter_source now (S i)
        (mkTask (pc t) (allJobs t ++ sourceJobs) (llmToken t) (deduped t)) s1
  | SourceSettled (Threw msg), AwaitSource i =>
      enter_source now (S i) t
        (pushEvent now (EvLog (source_name i +:+ " crawl failed: " +:+ msg)) s)
  | LlmSettled reply, AwaitLLM =>
      finish_advanced now (research_settled (deduped t) reply) t s
  | _, _ => st
  end.

Definition run_events (evs : list (string * Resume)) (st : Task * Session) : Task * Session :=
  fold_left (fun acc e => deliver (fst e) (snd e) acc) evs st.

End WithRuntime.

(** [const { advancedMode = false, llmToken = "" } = req.body || {}],
    the flag already through [Boolean(...)]. *)
Record StartBody := mkStartBody {
  b_advancedMode : option bool;
  b_llmToken : option string
}.

Section WithRuntime.
Context `{JsRuntime}.

(** The body of [POST /api/crawl/start] up to the first suspension of
    [runCrawl]: the session as stored and the suspended task. *)
Definition start_session (new_id now : string) (body : StartBody) : Task * Session :=
  let advanced := default false (b_advancedMode body) in
  let token := default "" (b_llmToken body) in
  let session := createSession new_id now advanced in
  let started :=
    pushEvent now
      (EvProgress 5 (if advancedMode session then "Starting advanced crawl" else "Starting crawl"))
      session in
  runCrawl now started token.

(** [POST /api/crawl/start]: no request is refused. *)
Definition post_start (new_id now : string) (body : StartBody)
    (crawlSessions : gmap string Session) : Reply * gmap string Session * Task :=
  let '(t, s) := start_session new_id now body in
  (ReplyAccepted 202 new_id, <[new_id := s]> crawlSessions, t).

End WithRuntime.

(** The closure of [GET /api/crawl/stream/:id]: the cursor into the
    event list, what was written to the response, whether the response
    was ended and whether the 400 ms interval timer is still set. *)
Record Stream := mkStream {
  eventIndex : nat;
  sent : list Event;
  ended : bool;
  timer : bool
}.

Definition terminal (st : Status) : bool :=
  match st with running => false | _ => true end.

(** [pushPendingEvents]. *)
Definition pushPendingEvents (s : Session) (o : Stream) : Stream :=
  let pending := drop (eventIndex o) (events s) in
  let idx := Nat.max (eventIndex o) (length (events s)) in
  if terminal (status s) then mkStream idx (sent o ++ pending) true false
  else mkStream idx (sent o ++ pending) (ended o) (timer o).

(** [GET /api/crawl/stream/:id]. *)
Definition get_stream (wanted : string) (crawlSessions : gmap string Session)
    : Reply * option Stream :=
  match crawlSessions !! wanted with
  | None => (ReplyError 404 "Crawl session not found", None)
  | Some s => (ReplyEventStream, Some (pushPendingEvents s (mkStream 0 [] false true)))
  end.

(** What happens to an open stream while the run goes on. *)
Inductive StreamEvent :=
  | RunTurn (now : string) (ev : Resume)   (* the run's task is resumed *)
  | Tick                                  (* the interval timer fires *)
  | Closed.                               (* the client went away *)

Section WithRuntime.
Context `{JsRuntime}.

Definition observe (ev : StreamEvent) (st : Task * Session * Stream)
    : Task * Session * Stream :=
  let '(t, s, o) := st in
  match ev with
  | RunTurn now r => (deliver now r (t, s), o)
  | Tick => if timer o then (t, s, pushPendingEvents s o) else st
  | Closed => (t, s, mkStream (eventIndex o) (sent o) (ended o) false)
  end.

Definition observe_all (evs : list StreamEvent) (st : Task * Session * Stream)
    : Task * Session * Stream :=
  fold_left (fun acc e => observe e acc) evs st.

End WithRuntime.

(** The record a source returns for one posting, as [normalizeJob]
    reads it: each field is a string or is absent ([None] for a missing
    or null property); [r_id] may also be a number, kept as the text a
    template literal prints for it ([0], [-0] and [NaN], the falsy
    numbers, print as "0" and "NaN"). *)
Inductive RawId :=
  | IdAbsent
  | IdString (s : string)
  | IdNumber (shown : string).

Record RawJob := mkRawJob {
  r_id : RawId;
  r_url : option string;
  r_link : option string;
  r_title : option string;
  r_company_name : option string;
  r_company : option string;
  r_companyName : option string;
  r_candidate_required_location : option string;
  r_location : option string;
  r_jobUrl : option string;
  r_landing_page : option string;
  r_refs_landing_page : option string;
  r_publication_date : option string;
  r_created_at : option string;
  r_publicationDate : option string;
  r_description : option string;
  r_short_description : option string;
  r_snippet : option string
}.

(** [a || b] on a string that may be absent: the empty string is falsy. *)
Definition or_else (a b : option string) : option string :=
  match a with
  | Some (String _ _) => a
  | _ => b
  end.

(** [a || "default"]. *)
Definition or_default (a : option string) (d : string) : string :=
  match a with
  | Some (String c s) => String c s
  | _ => d
  end.

(** [job.id || job.url || job.link || Math.random().toString(16).slice(2)],
    rendered; [rand] is the hexadecimal string the runtime draws. *)
Definition id_part (rand : string) (job : RawJob) : string :=
  let fallback := or_default (or_else (r_url job) (r_link job)) rand in
  match r_id job with
  | IdString (String c s) => String c s
  | IdNumber shown =>
      if bool_decide (shown = "0" \/ shown = "NaN") then fallback else shown
  | _ => fallback
  end.

(** [normalizeJob(job, source)]. *)
Definition normalizeJob (rand : string) (job : RawJob) (src : string) : Job :=
  mkJob
    (src +:+ "-" +:+ id_part rand job)
    src
    (or_default (r_title job) "Unknown role")
    (or_default (or_else (r_company_name job) (or_else (r_company job) (r_companyName job)))
       "Unknown company")
    (or_default (or_else (r_candidate_required_location job) (r_location job))
       "Remote / Unknown")
    (or_default
       (or_else (r_url job)
          (or_else (r_jobUrl job) (or_else (r_landing_page job) (r_refs_landing_page job))))
       "")
    (or_else (r_publication_date job)
       (or_else (r_created_at job) (or_else (r_publicationDate job) None)))
    (or_default
       (or_else (r_description job) (or_else (r_short_description job) (r_snippet job)))
       "").

(** The object [crawlArbeitnow] spreads before normalising: the three
    named properties are set from the record's own fields. *)
Definition arbeitnow_view (job : RawJob) : RawJob :=
  mkRawJob (r_id job) (r_url job) (r_link job) (r_title job)
    (r_company_name job) (r_company job) (r_companyName job)
    (r_location job) (r_location job)
    (r_jobUrl job) (r_landing_page job) (r_refs_landing_page job)
    (r_created_at job) (r_created_at job) (r_publicationDate job)
    (r_description job) (r_short_description job) (r_snippet job).

(** The bodies of [crawlRemotive] and [crawlArbeitnow] once the
    response is parsed: [data.jobs || []] and [data.data || []] mapped
    through [normalizeJob]; [rand i] is the random string the runtime
    would draw for record [i]. *)
Definition remotive_jobs (rand : nat -> string) (records : list RawJob) : list Job :=
  imap (fun i job => normalizeJob (rand i) job "Remotive") records.

Definition arbeitnow_jobs (rand : nat -> string) (records : list RawJob) : list Job :=
  imap (fun i job => normalizeJob (rand i) (arbeitnow_view job) "Arbeitnow") records.

(** [GET /api/crawl/:id]: the session itself is sent, or 404. *)
Definition get_session (wanted : string) (crawlSessions : gmap string Session)
    : Reply + Session :=
  match crawlSessions !! wanted with
  | None => inl (ReplyError 404 "Crawl session not found")
  | Some s => inr s
  end.

End Part000.

(** ** The deduplicator as the specification words it

    "A pure, order-stable fold (first-seen wins)": a job is kept when no
    job before it had its key.  [seen] lists the keys met so far. *)
Section KeepFirst.
Context {A : Type} (key : A -> string).

Fixpoint keep_first (seen : list string) (l : list A) : list A :=
  match l with
  | [] => []
  | x :: rest =>
      if bool_decide (key x ∈ seen) then keep_first seen rest
      else x :: keep_first (key x :: seen) rest
  end.

Definition has_key (k : string) (x : A) : bool := bool_decide (key x = k).

End KeepFirst.

(** ** Schedules of complete runs

    [clock k] is the clock reading at the k-th turn, [results i] what
    the fetcher of source [i] settles to. *)
Definition server_launch `{JsRuntime} (new_id now m tok : string)
    : ServerJs.Task * ServerJs.Run :=
  ServerJs.startRun now (ServerJs.createRun new_id now m) tok.

Definition server_standard_schedule (clock : nat -> string)
    (results : nat -> Settled ServerJs.Job) : list (string * ServerJs.Event) :=
  [ (clock 1, ServerJs.SourceSettled (results 0));
    (clock 2, ServerJs.SourceSettled (results 1)) ].

Definition server_advanced_schedule (clock : nat -> string)
    (results : nat -> Settled ServerJs.Job) (reply : ServerJs.LlmReply)
    : list (string * ServerJs.Event) :=
  [ (clock 1, ServerJs.TimerFired); (clock 2, ServerJs.TimerFired);
    (clock 3, ServerJs.TimerFired); (clock 4, ServerJs.TimerFired);
    (clock 5, ServerJs.SourceSettled (results 0));
    (clock 6, ServerJs.SourceSettled (results 1));
    (clock 7, ServerJs.LlmSettled reply) ].

Definition part_crawl_schedule (clock : nat -> string)
    (results : nat -> Settled Part000.Job) : list (string * Part000.Resume) :=
  [ (clock 1, Part000.SourceSettled (results 0));
    (clock 2, Part000.SourceSettled (results 1)) ].

Definition part_advanced_schedule (clock : nat -> string)
    (results : nat -> Settled Part000.Job) (reply : Part000.LlmReply)
    : list (string * Part000.Resume) :=
  part_crawl_schedule clock results ++ [ (clock 3, Part000.LlmSettled reply) ].

(** The log line a settled source leaves in each variant. *)
Definition server_source_line (i : nat) (r : Settled ServerJs.Job) : string :=
  match r with
  | Returned found =>
      ServerJs.source_label i +:+ ": found " +:+ show_nat (length found)
      +:+ " matching ML roles."
  | Threw msg => ServerJs.source_label i +:+ " failed: " +:+ msg
  end.

Definition part_source_line (i : nat) (r : Settled Part000.Job) : string :=
  match r with
  | Returned found =>
      "Collected " +:+ show_nat (length found) +:+ " jobs from " +:+ Part000.source_name i
  | Threw msg => Part000.source_name i +:+ " crawl failed: " +:+ msg
  end.

(** What the LLM step of [server.js] logs and leaves in [run.jobs]. *)
Definition server_llm_line (reply : ServerJs.LlmReply) : string :=
  match reply with
  | ServerJs.LlmThrew msg => "LLM synthesis skipped: " +:+ msg
  | ServerJs.LlmInsights _ => "LLM synthesis complete: jobs scored with fitScore and rationale."
  end.

Definition server_llm_jobs (reply : ServerJs.LlmReply) (pool : list ServerJs.Job) : list ServerJs.Job :=
  match reply with
  | ServerJs.LlmThrew _ => pool
  | ServerJs.LlmInsights insights => js_sort ServerJs.by_fit_desc (map (ServerJs.annotate (ServerJs.insightMap insights)) pool)
  end.

(** The jobs [part_000] ranks: the ML jobs of both sources, deduplicated. *)
Definition part_pool `{JsRuntime} (results : nat -> Settled Part000.Job)
    : list Part000.Job :=
  Part000.dedupe (List.filter Part000.isMLJob (got (results 0) ++ got (results 1))).

(** The jobs [server.js] holds after the crawl. *)
Definition server_pool `{JsRuntime} (results : nat -> Settled ServerJs.Job)
    : list ServerJs.Job :=
  js_sort ServerJs.by_title (ServerJs.dedupeJobs (got (results 0) ++ got (results 1))).

(** The same answers, source [i] returning no job instead. *)
Definition without_source {A : Type} (i : nat) (results : nat -> Settled A)
    : nat -> Settled A :=
  fun k => if decide (k = i) then Returned [] else results k.

(** The merge the specification words: the jobs the identifier list
    refers to, in its order, then the jobs it does not refer to, in
    their own order. *)
Definition referenced_first (ids : list string) (pool : list Part000.Job)
    : list Part000.Job :=
  omap (Part000.find_by_id pool) ids
  ++ List.filter (fun job => negb (bool_decide (Part000.id job ∈ ids))) pool.

(** What a session of [part_000] ends with, by the flags of its start
    request. *)
Definition part_final_jobs (body : Part000.StartBody) (pool : list Part000.Job)
    (reply : Part000.LlmReply) : list Part000.Job :=
  if default false (Part000.b_advancedMode body) then
    if decide (default "" (Part000.b_llmToken body) = "") then take 30 pool
    else take 50 (Part000.a_jobs (Part000.research_settled pool reply))
  else take 50 pool.

(** Invariants of the machines, by suspension point. *)
Definition part_events_within (st : Part000.Task * Part000.Session) : Prop :=
  match Part000.pc st.1 with
  | Part000.AwaitSource i => i < 2 /\ length (Part000.events st.2) = 2 + 2 * i
  | Part000.AwaitLLM => length (Part000.events st.2) = 7
  | Part000.Finished => length (Part000.events st.2) <= 9
  end.

Definition part_run_inv (st : Part000.Task * Part000.Session) : Prop :=
  match Part000.pc st.1 with
  | Part000.Finished =>
      Part000.status st.2 = Part000.completed /\
      Part000.progress st.2 = 100%Z /\
      (exists finalJobs, Part000.jobs st.2 = take 50 finalJobs) /\
      (exists now,
         last (Part000.events st.2) =
           Some (Part000.mkEvent now
                   (Part000.EvDone 100 "Completed" (length (Part000.jobs st.2)))))
  | Part000.AwaitSource i =>
      i < 2 /\ Part000.status st.2 = Part000.running /\ Part000.jobs st.2 = []
  | Part000.AwaitLLM =>
      Part000.status st.2 = Part000.running /\ Part000.jobs st.2 = []
  end.

Definition server_log_capped (r : ServerJs.Run) : Prop :=
  length (ServerJs.logs r) <= 150.

(** What holds of an open stream of [part_000] next to its run: the
    response was sent a prefix of the event list, and it is ended only
    after the run finished and every event was written. *)
Definition part_stream_inv (st : Part000.Task * Part000.Session * Part000.Stream) : Prop :=
  part_run_inv st.1 /\
  Part000.sent st.2 = take (Part000.eventIndex st.2) (Part000.events st.1.2) /\
  Part000.eventIndex st.2 <= length (Part000.events st.1.2) /\
  (Part000.ended st.2 = true ->
     Part000.pc st.1.1 = Part000.Finished /\
     Part000.eventIndex st.2 = length (Part000.events st.1.2) /\
     Part000.timer st.2 = false).

(** No response held by a run of [server.js] was ended. *)
Definition server_streams_open (r : ServerJs.Run) : Prop :=
  Forall (fun c => ServerJs.ended c = false) (ServerJs.clients r).

(** ** Concrete inputs *)
Definition demo_clock (k : nat) : string := "t" +:+ show_nat k.

Definition sjob (t u : string) : ServerJs.Job :=
  ServerJs.mkJob t "Acme" "Remote" "RemoteOK" u None "python" None None.

Definition pjob (i t : string) : Part000.Job :=
  Part000.mkJob i "Remotive" t "Acme" "Remote" "" None "".

(** Sixty distinct ML jobs from one source. *)
Definition sixty_jobs : list Part000.Job :=
  map (fun n => pjob (show_nat n) ("ML engineer " +:+ show_nat n)) (seq 0 60).

Definition sixty_results (i : nat) : Settled Part000.Job :=
  match i with
  | 0 => Returned sixty_jobs
  | _ => Threw "Arbeitnow request failed with 503"
  end.

(** A run whose log holds 150 lines. *)
Definition crowded_run : ServerJs.Run :=
  ServerJs.set_logs
    (ServerJs.mkLog "t0" "first" :: repeat (ServerJs.mkLog "t0" "line") 149)
    (ServerJs.createRun "run-1" "t0" "standard").

(** An advanced run of [server.js] watched from its start by client 7. *)
Definition watched_advanced_run `{JsRuntime} (new_id : string) (clock : nat -> string)
    (c : ascii) (tok : string) : ServerJs.Task * ServerJs.Run :=
  ServerJs.run_events
    [ (clock 1, ServerJs.ClientAttached 7);
      (clock 2, ServerJs.TimerFired); (clock 3, ServerJs.TimerFired);
      (clock 4, ServerJs.TimerFired); (clock 5, ServerJs.TimerFired) ]
    (server_launch new_id (clock 0) "advanced" (String c tok)).

(** One source returns three ML jobs, the other fails. *)
Definition three_results (i : nat) : Settled ServerJs.Job :=
  match i with
  | 0 => Returned [ sjob "ML Engineer" "u1"; sjob "NLP Scientist" "u2";
                    sjob "Data Scientist" "u3" ]
  | _ => Threw "WeWorkRemotely returned 503"
  end.

(** One source returns job "b" before job "a", the other fails. *)
Definition two_results (i : nat) : Settled ServerJs.Job :=
  match i with
  | 0 => Returned [ sjob "b" "u2"; sjob "a" "u1" ]
  | _ => Threw "WeWorkRemotely returned 503"
  end.

(** The LLM scores "b" first and lower than "a". *)
Definition two_insights : list ServerJs.Insight :=
  [ ServerJs.mkInsight "u2" (Some 10%Z) "second choice";
    ServerJs.mkInsight "u1" (Some 90%Z) "first choice" ].

Definition demo_advanced_run (reply : ServerJs.LlmReply) : ServerJs.Task * ServerJs.Run :=
  ServerJs.run_events (H := ascii_runtime)
    (server_advanced_schedule demo_clock two_results reply)
    (server_launch (H := ascii_runtime) "run-1" "t0" "advanced" "sk-1").

(** The last message written to every response a run of [server.js]
    holds is the snapshot of the run as it is. *)
Definition server_clients_current (r : ServerJs.Run) : Prop :=
  Forall
    (fun k => exists at_, last (ServerJs.written k) = Some (ServerJs.snapshot at_ r))
    (ServerJs.clients r).

(** A standard run of [server.js] watched by client 7 from its start. *)
Definition watched_standard_run : ServerJs.Task * ServerJs.Run :=
  ServerJs.run_events (H := ascii_runtime)
    [ (demo_clock 1, ServerJs.ClientAttached 7);
      (demo_clock 2, ServerJs.SourceSettled (three_results 0));
      (demo_clock 3, ServerJs.SourceSettled (three_results 1)) ]
    (server_launch (H := ascii_runtime) "run-1" "t0" "standard" "").

(** A session of [part_000] whose first source has settled. *)
Definition half_crawled_session : Part000.Task * Part000.Session :=
  Part000.run_events (H := ascii_runtime)
    [ (demo_clock 1, Part000.SourceSettled (sixty_results 0)) ]
    (Part000.start_session (H := ascii_runtime) "s-1" "t0" (Part000.mkStartBody None None)).

(** Five of the sixty jobs, and an answer that names two of them and an
    unknown job. *)
Definition five_jobs : list Part000.Job := take 5 sixty_jobs.
Definition five_ranking : list string := [ "3"; "none"; "1" ].

(** ** Progress, by suspension point *)

(** The progress an event of [part_000] reports, if any. *)
Definition event_progress (e : Part000.Event) : option Z :=
  match Part000.body e with
  | Part000.EvProgress p _ => Some p
  | Part000.EvDone p _ _ => Some p
  | _ => None
  end.

(** A list of reported values climbs from [lo] up to [bound]. *)
Definition climbs (lo bound : Z) (reported : list Z) : Prop :=
  StronglySorted Z.le reported /\ Forall (fun p => (lo <= p <= bound)%Z) reported.

Definition part_progress_inv (st : Part000.Task * Part000.Session) : Prop :=
  climbs 5 (Part000.progress st.2) (omap event_progress (Part000.events st.2)) /\
  match Part000.pc st.1 with
  | Part000.AwaitSource i => i < 2 /\ Part000.progress st.2 = Part000.crawl_progress i 2
  | Part000.AwaitLLM => Part000.progress st.2 = 88%Z
  | Part000.Finished => Part000.progress st.2 = 100%Z
  end.

(** What holds of a run of [server.js] at each suspension point. *)
Definition server_run_inv (st : ServerJs.Task * ServerJs.Run) : Prop :=
  match ServerJs.pc st.1 with
  | ServerJs.AwaitStage i =>
      i < 4 /\ ServerJs.status st.2 = ServerJs.running /\
      ServerJs.progress st.2 = (10 * Z.of_nat i)%Z /\ length (ServerJs.logs st.2) = 2
  | ServerJs.AwaitSource i =>
      i < 2 /\ ServerJs.status st.2 = ServerJs.running /\
      ServerJs.progress st.2 = (40 * Z.of_nat i)%Z /\
      length (ServerJs.logs st.2) <= 3 + 2 * i
  | ServerJs.AwaitLLM =>
      ServerJs.status st.2 = ServerJs.running /\
      ServerJs.progress st.2 = 95%Z /\ length (ServerJs.logs st.2) <= 6
  | ServerJs.Finished =>
      (ServerJs.status st.2 = ServerJs.completed /\
       ServerJs.progress st.2 = 100%Z /\ length (ServerJs.logs st.2) <= 7) \/
      (ServerJs.status st.2 = ServerJs.failed /\
       ServerJs.progress st.2 = 0%Z /\ length (ServerJs.logs st.2) = 2)
  end.

(** Every response the run holds was written progress values that
    climb up to the progress of the run. *)
Definition server_seen_below (r : ServerJs.Run) : Prop :=
  Forall
    (fun k => climbs 0 (ServerJs.progress r) (ServerJs.p_progress <$> ServerJs.written k))
    (ServerJs.clients r).

(** A run started in standard mode is in the crawl or finished. *)
Definition server_standard_inv (st : ServerJs.Task * ServerJs.Run) : Prop :=
  ServerJs.caller st.1 = ServerJs.FromStartRun /\
  match ServerJs.pc st.1 with
  | ServerJs.AwaitSource _ | ServerJs.Finished => True
  | _ => False
  end /\
  (0 <= ServerJs.progress st.2)%Z /\
  server_seen_below st.2.

(** The events of [server.js] that come from a watching client, and a
    run with its clients left out. *)
Definition is_observer (ev : ServerJs.Event) : bool :=
  match ev with
  | ServerJs.ClientAttached _ | ServerJs.ClientClosed _ => true
  | _ => false
  end.

Definition unobserved (r : ServerJs.Run) : ServerJs.Run := ServerJs.set_clients [] r.

Definition server_core (st : ServerJs.Task * ServerJs.Run) : ServerJs.Task * ServerJs.Run :=
  (st.1, unobserved st.2).

Definition run_only (evs : list (string * ServerJs.Event)) : list (string * ServerJs.Event) :=
  filter (fun e => is_observer e.2 = false) evs.

(** The fields no turn of a run writes to. *)
Definition server_identity (r : ServerJs.Run) : string * string * string :=
  (ServerJs.id r, ServerJs.mode r, ServerJs.createdAt r).

Definition part_identity (s : Part000.Session) : string * bool * string * option string :=
  (Part000.s_id s, Part000.advancedMode s, Part000.startedAt s, Part000.error s).

(** [finishedAt] is set exactly when [runCrawl] has returned. *)
Definition part_finishedAt_inv (st : Part000.Task * Part000.Session) : Prop :=
  match Part000.pc st.1 with
  | Part000.Finished => is_Some (Part000.finishedAt st.2)
  | _ => Part000.finishedAt st.2 = None
  end.

(** A field that [a || b] skips: absent, null or the empty string. *)
Definition blank (field : option string) : Prop := field = None \/ field = Some "".

(** The rule for a field with aliases, as a search: the first alias, in
    the order written, that is a non-empty string. *)
Fixpoint first_filled (aliases : list (option string)) : option string :=
  match aliases with
  | [] => None
  | Some (String c s) :: _ => Some (String c s)
  | _ :: rest => first_filled rest
  end.

(** One element of the array the RemoteOK API answers with, as
    [scrapeRemoteOk] reads it: [ro_id] is the identifier as a template
    literal renders it, [ro_position] the text of [position]; the other
    fields may be absent. *)
Record RemoteOkRecord := mkRemoteOk {
  ro_id : string;
  ro_position : string;
  ro_tags : option (list string);
  ro_company : option string;
  ro_location : option string;
  ro_date : option string
}.

(** [job.tags?.join(sep)], absent tags giving nothing to print. *)
Definition tags_joined (sep : string) (tags : option (list string)) : option string :=
  match tags with
  | Some l => Some (String.concat sep l)
  | None => None
  end.

(** The text [scrapeRemoteOk] hands to [containsMLKeyword]. *)
Definition remoteok_text (raw : RemoteOkRecord) : string :=
  ro_position raw +:+ " " +:+ Part000.or_default (tags_joined " " (ro_tags raw)) "".

Definition remoteok_job (raw : RemoteOkRecord) : ServerJs.Job :=
  ServerJs.mkJob
    (ro_position raw)
    (Part000.or_default (ro_company raw) "Unknown")
    (Part000.or_default (ro_location raw) "Remote")
    "RemoteOK"
    ("https://remoteok.com/remote-jobs/" +:+ ro_id raw)
    (Part000.or_else (ro_date raw) None)
    (Part000.or_default (tags_joined ", " (ro_tags raw)) "No tags listed")
    None None.

(** What [scrapeRemoteOk] returns for the parsed answer [data]:
    [data.slice(1).filter(...).map(...)]. *)
Definition remoteok_jobs `{JsRuntime} (data : list RemoteOkRecord) : list ServerJs.Job :=
  map remoteok_job
    (List.filter (fun raw => ServerJs.containsMLKeyword (remoteok_text raw)) (drop 1 data)).

(** * Facts *)

(** Membership in a list that is written out. *)
Ltac in_list := repeat first [apply list_elem_of_here | apply list_elem_of_further].

(** ** Deduplication *)
Section KeepFirstFacts.
Context {A : Type} (key : A -> string).

Lemma keep_first_sublist seen l : sublist (keep_first key seen l) l.
Proof.
  revert seen; induction l as [|x l IH]; intros seen; simpl; [constructor|].
  case_bool_decide; [apply sublist_cons | apply sublist_skip]; apply IH.
Qed.

Lemma keep_first_fresh seen l x : x ∈ keep_first key seen l → key x ∉ seen.
Proof.
  revert seen; induction l as [|y l IH]; intros seen; simpl; [by intros ?%elem_of_nil|].
  case_bool_decide as Hy; [apply IH|].
  intros [->|Hx]%elem_of_cons; [done|].
  apply IH in Hx. set_solver.
Qed.

Lemma keep_first_NoDup seen l : NoDup (key <$> keep_first key seen l).
Proof.
  revert seen; induction l as [|x l IH]; intros seen; simpl; [constructor|].
  case_bool_decide; [apply IH|].
  rewrite fmap_cons. constructor; [|apply IH].
  intros (y & Hk & Hy)%list_elem_of_fmap.
  apply keep_first_fresh in Hy. set_solver.
Qed.

Lemma keep_first_find seen l k :
  k ∉ seen → find (has_key key k) (keep_first key seen l) = find (has_key key k) l.
Proof.
  revert seen; induction l as [|x l IH]; intros seen Hk; [done|].
  cbn [keep_first find].
  destruct (decide (key x ∈ seen)) as [Hs|Hs];
    [rewrite (bool_decide_eq_true_2 _ Hs)|rewrite (bool_decide_eq_false_2 _ Hs)];
    destruct (has_key key k x) eqn:Hx; cbn [find]; rewrite ?Hx.
  - apply bool_decide_eq_true_1 in Hx. congruence.
  - by apply IH.
  - done.
  - apply IH. apply bool_decide_eq_false_1 in Hx. set_solver.
Qed.

Lemma keep_first_id seen l :
  NoDup (key <$> l) → (∀ x, x ∈ l → key x ∉ seen) → keep_first key seen l = l.
Proof.
  revert seen; induction l as [|x l IH]; intros seen Hnd Hfresh; [done|].
  cbn [keep_first]. rewrite fmap_cons in Hnd. apply NoDup_cons in Hnd as [Hx Hnd].
  assert (key x ∉ seen) as Hs by (apply Hfresh; left).
  rewrite (bool_decide_eq_false_2 _ Hs).
  f_equal. apply IH; [done|].
  intros y Hy [Heq|Hin]%elem_of_cons.
  - apply Hx. rewrite <- Heq. apply list_elem_of_fmap. eauto.
  - eapply Hfresh; [right; exact Hy|done].
Qed.

Lemma keep_first_idempotent seen l :
  keep_first key seen (keep_first key seen l) = keep_first key seen l.
Proof.
  apply keep_first_id; [apply keep_first_NoDup|].
  intros x. apply keep_first_fresh.
Qed.

Lemma keep_first_seen_ext seen seen' l :
  (∀ k, k ∈ seen ↔ k ∈ seen') → keep_first key seen l = keep_first key seen' l.
Proof.
  revert seen seen'; induction l as [|x l IH]; intros seen seen' Heq; simpl; [done|].
  rewrite (bool_decide_ext _ _ (Heq (key x))).
  case_bool_decide; [by apply IH|].
  f_equal. apply IH. intros k. rewrite !elem_of_cons, Heq. done.
Qed.

End KeepFirstFacts.

Section DedupeFacts.
Context `{JsRuntime}.

Lemma server_dedupe_from_keep_first (seen : gset string) (sl : list string) jobs :
  (∀ k, k ∈ seen ↔ k ∈ sl) →
  ServerJs.dedupe_from seen jobs = keep_first ServerJs.dedupe_key sl jobs.
Proof.
  revert seen sl; induction jobs as [|x l IH]; intros seen sl Heq; simpl; [done|].
  case_decide as Hs; case_bool_decide as Hl.
  - by apply IH.
  - by apply Heq in Hs.
  - by apply Heq in Hl.
  - f_equal. apply IH. intros k. rewrite elem_of_union, elem_of_singleton, elem_of_cons, Heq. done.
Qed.

Lemma server_dedupeJobs_keep_first jobs :
  ServerJs.dedupeJobs jobs = keep_first ServerJs.dedupe_key [] jobs.
Proof. apply server_dedupe_from_keep_first. set_solver. Qed.

Lemma part_acc_get_None key (acc : list (string * Part000.Job)) :
  Part000.acc_get key acc = None ↔ key ∉ acc.*1.
Proof.
  induction acc as [|[k v] acc IH]; simpl; [set_solver|].
  case_decide; subst; [set_solver|]. rewrite IH. set_solver.
Qed.

Lemma part_fold_keep_first jobs (acc : list (string * Part000.Job)) :
  (fold_left Part000.dedupe_step jobs acc).*2 =
  acc.*2 ++ keep_first Part000.dedupe_key (acc.*1) jobs.
Proof.
  revert acc; induction jobs as [|x l IH]; intros acc; simpl; [by rewrite app_nil_r|].
  rewrite IH. unfold Part000.dedupe_step.
  destruct (Part000.acc_get _ acc) eqn:Hget.
  - rewrite bool_decide_eq_true_2; [done|].
    destruct (decide (Part000.dedupe_key x ∈ acc.*1)) as [|Hn]; [done|].
    apply part_acc_get_None in Hn. congruence.
  - apply part_acc_get_None in Hget.
    rewrite bool_decide_eq_false_2 by done.
    rewrite !fmap_app. simpl. rewrite <- app_assoc. simpl. do 2 f_equal.
    apply keep_first_seen_ext. intros k. set_solver.
Qed.

Lemma part_dedupe_keep_first jobs :
  Part000.dedupe jobs = keep_first Part000.dedupe_key [] jobs.
Proof. unfold Part000.dedupe. change (map snd ?l) with (l.*2). by rewrite part_fold_keep_first. Qed.

(** C5.  In both variants deduplication is the first-seen-wins fold on a
    fixed lower-cased key: the lower-cased text of title, company and
    url joined by bars in [server.js]; the lower-cased title, a hyphen
    and the lower-cased company in [part_000].  The result is a sublist
    of the input, no two kept jobs share a key, for every key the kept
    job is the first job of the input with that key, and deduplicating
    a deduplicated list changes nothing. *)
Theorem C5_dedupe_first_seen_idempotent :
  (forall jobs : list ServerJs.Job,
     let key := fun job : ServerJs.Job =>
       toLowerCase
         (ServerJs.title job +:+ "|" +:+ ServerJs.company job +:+ "|" +:+ ServerJs.url job) in
     let out := ServerJs.dedupeJobs jobs in
     out = keep_first key [] jobs /\
     sublist out jobs /\
     NoDup (key <$> out) /\
     (forall k, find (has_key key k) out = find (has_key key k) jobs) /\
     ServerJs.dedupeJobs out = out) /\
  (forall jobs : list Part000.Job,
     let key := fun job : Part000.Job =>
       toLowerCase (Part000.title job) +:+ "-" +:+ toLowerCase (Part000.company job) in
     let out := Part000.dedupe jobs in
     out = keep_first key [] jobs /\
     sublist out jobs /\
     NoDup (key <$> out) /\
     (forall k, find (has_key key k) out = find (has_key key k) jobs) /\
     Part000.dedupe out = out).
Proof.
  split; intros jobs key out; subst out.
  - assert (key = ServerJs.dedupe_key) as -> by reflexivity.
    rewrite !server_dedupeJobs_keep_first.
    repeat split.
    + apply keep_first_sublist.
    + apply keep_first_NoDup.
    + intros k. apply keep_first_find, not_elem_of_nil.
    + apply keep_first_idempotent.
  - assert (key = Part000.dedupe_key) as -> by reflexivity.
    rewrite !part_dedupe_keep_first.
    repeat split.
    + apply keep_first_sublist.
    + apply keep_first_NoDup.
    + intros k. apply keep_first_find, not_elem_of_nil.
    + apply keep_first_idempotent.
Qed.

End DedupeFacts.

(** ** [part_000]: the run machine *)
Section PartRunFacts.
Context `{JsRuntime}.
Import Part000.

Ltac part_unfold :=
  unfold deliver, enter_source, after_sources, finish_advanced, finalize, runCrawl,
    start_session, pushEvent, createSession.

Ltac part_cases :=
  repeat match goal with
  | |- context [if advancedMode ?s then _ else _] => destruct (advancedMode s) eqn:?
  | |- context [if decide ?P then _ else _] => destruct (decide P)
  end.

Lemma take_take_50_30 {A} (l : list A) : take 50 (take 30 l) = take 30 l.
Proof. by rewrite take_take. Qed.

Lemma part_start_within new_id now body :
  part_events_within (start_session new_id now body).
Proof. unfold part_events_within. part_unfold. cbn. lia. Qed.

Lemma part_deliver_within now ev st :
  part_events_within st -> part_events_within (deliver now ev st).
Proof.
  destruct st as [t s]. unfold part_events_within at 1. cbn [fst snd].
  destruct ev as [[found|msg]|reply], (pc t) as [i| |] eqn:Hpc; intros Hst;
    try (unfold part_events_within, deliver; rewrite Hpc; cbn [fst snd]; rewrite ?Hpc; done).
  1,2: destruct Hst as [Hi Hlen]; destruct i as [|[|i]]; [| |lia].
  all: unfold part_events_within; part_unfold; rewrite Hpc; cbn -[Nat.mul]; part_cases;
    cbn -[Nat.mul]; rewrite ?length_app; cbn -[Nat.mul]; try lia.
Qed.

Lemma part_run_events_within evs st :
  part_events_within st -> part_events_within (run_events evs st).
Proof.
  revert st; induction evs as [|[now ev] evs IH]; intros st Hst; [done|].
  apply IH, part_deliver_within, Hst.
Qed.

Lemma part_events_within_le st : part_events_within st -> length (events st.2) <= 9.
Proof. unfold part_events_within. destruct (pc st.1); lia. Qed.

Lemma part_start_inv new_id now body : part_run_inv (start_session new_id now body).
Proof. unfold part_run_inv. part_unfold. cbn. repeat split; lia. Qed.

Lemma part_deliver_inv now ev st : part_run_inv st -> part_run_inv (deliver now ev st).
Proof.
  destruct st as [t s]. unfold part_run_inv at 1. cbn [fst snd].
  destruct ev as [[found|msg]|reply], (pc t) as [i| |] eqn:Hpc; intros Hst;
    try (unfold part_run_inv, deliver; rewrite Hpc; cbn [fst snd]; rewrite ?Hpc; done).
  1,2: destruct Hst as (Hi & Hst & Hjobs); destruct i as [|[|i]]; [| |lia].
  all: unfold part_run_inv; part_unfold; rewrite Hpc; cbn; part_cases; cbn;
    rewrite ?last_snoc; repeat split; eauto; try lia; try tauto.
Qed.

Lemma part_run_events_inv evs st : part_run_inv st -> part_run_inv (run_events evs st).
Proof.
  revert st; induction evs as [|[now ev] evs IH]; intros st Hst; [done|].
  apply IH, part_deliver_inv, Hst.
Qed.

(** A run is finished exactly when it is completed; the model has no
    turn that fails a [part_000] run. *)
Lemma part_inv_completed st :
  part_run_inv st -> (status st.2 = completed <-> pc st.1 = Finished).
Proof.
  unfold part_run_inv. destruct (pc st.1); [intros (_ & -> & _)|intros (-> & _)|intros (-> & _)];
    split; congruence.
Qed.

(** Events are only ever appended. *)
Lemma part_deliver_appends now ev st :
  exists more, events (deliver now ev st).2 = events st.2 ++ more.
Proof.
  destruct st as [t s].
  destruct ev as [[found|msg]|reply], (pc t) as [i| |] eqn:Hpc;
    try (exists []; unfold deliver; rewrite Hpc; cbn [snd]; by rewrite app_nil_r).
  all: part_unfold; rewrite Hpc; cbn [snd]; try destruct (source_names !! S i);
    part_cases; cbn; rewrite <- ?app_assoc; eauto.
Qed.

Lemma part_run_events_appends evs st :
  exists more, events (run_events evs st).2 = events st.2 ++ more.
Proof.
  revert st; induction evs as [|[now ev] evs IH]; intros st; [exists []; by rewrite app_nil_r|].
  destruct (IH (deliver now ev st)) as [m2 H2], (part_deliver_appends now ev st) as [m1 H1].
  exists (m1 ++ m2). cbn [run_events fold_left fst snd] in *.
  unfold run_events in H2. rewrite H2, H1, app_assoc. done.
Qed.

Lemma part_deliver_finished now ev t s : pc t = Finished -> deliver now ev (t, s) = (t, s).
Proof. intros Hpc. unfold deliver. rewrite Hpc. by destruct ev as [[]|]. Qed.

(** The complete trace of a run without ranking. *)
Lemma part_standard_run new_id clock adv tok results :
  default false adv = false ->
  let fin := run_events (part_crawl_schedule clock results)
               (start_session new_id (clock 0) (mkStartBody adv tok)) in
  pc fin.1 = Finished /\ status fin.2 = completed /\
  allJobs fin.1 = got (results 0) ++ got (results 1) /\
  jobs fin.2 = take 50 (part_pool results) /\
  body <$> events fin.2 =
    [ EvProgress 5 "Starting crawl";
      EvProgress 10 "Crawling Remotive"; EvLog (part_source_line 0 (results 0));
      EvProgress 40 "Crawling Arbeitnow"; EvLog (part_source_line 1 (results 1));
      EvProgress 75 "Filtering ML jobs";
      EvDone 100 "Completed" (length (take 50 (part_pool results))) ].
Proof.
  intros Hadv fin; subst fin. unfold part_pool, part_crawl_schedule.
  destruct adv as [[|]|]; try done;
    destruct (results 0), (results 1); split_and!; try reflexivity;
    cbn [got]; rewrite ?app_nil_r; reflexivity.
Qed.

(** The complete trace of an advanced run whose token is missing. *)
Lemma part_advanced_run_without_token new_id clock tok results :
  default "" tok = "" ->
  let fin := run_events (part_crawl_schedule clock results)
               (start_session new_id (clock 0) (mkStartBody (Some true) tok)) in
  pc fin.1 = Finished /\ status fin.2 = completed /\
  allJobs fin.1 = got (results 0) ++ got (results 1) /\
  jobs fin.2 = take 30 (part_pool results) /\
  body <$> events fin.2 =
    [ EvProgress 5 "Starting advanced crawl";
      EvProgress 10 "Crawling Remotive"; EvLog (part_source_line 0 (results 0));
      EvProgress 40 "Crawling Arbeitnow"; EvLog (part_source_line 1 (results 1));
      EvProgress 75 "Filtering ML jobs";
      EvProgress 88 "Advanced mode: LangGraph deep research";
      EvLog (String.concat " | "
               (graph_notes ++ ["No LLM API token provided. Returned heuristic ranking only."]));
      EvDone 100 "Completed" (length (take 30 (part_pool results))) ].
Proof.
  intros Htok fin; subst fin.
  rewrite <- (take_take_50_30 (part_pool results)).
  unfold part_pool, part_crawl_schedule.
  destruct tok as [[|c tok]|]; try done;
    destruct (results 0), (results 1); split_and!; try reflexivity;
    cbn [got]; rewrite ?app_nil_r; reflexivity.
Qed.

(** The complete trace of an advanced run with a token. *)
Lemma part_advanced_run new_id clock tok results reply :
  tok <> "" ->
  let fin := run_events (part_advanced_schedule clock results reply)
               (start_session new_id (clock 0) (mkStartBody (Some true) (Some tok))) in
  let res := research_settled (part_pool results) reply in
  pc fin.1 = Finished /\ status fin.2 = completed /\
  allJobs fin.1 = got (results 0) ++ got (results 1) /\
  jobs fin.2 = take 50 (a_jobs res) /\
  body <$> events fin.2 =
    [ EvProgress 5 "Starting advanced crawl";
      EvProgress 10 "Crawling Remotive"; EvLog (part_source_line 0 (results 0));
      EvProgress 40 "Crawling Arbeitnow"; EvLog (part_source_line 1 (results 1));
      EvProgress 75 "Filtering ML jobs";
      EvProgress 88 "Advanced mode: LangGraph deep research";
      EvLog (String.concat " | " (a_notes res));
      EvDone 100 "Completed" (length (take 50 (a_jobs res))) ].
Proof.
  intros Htok fin res; subst fin res. destruct tok as [|c tok]; [done|].
  unfold part_pool, part_advanced_schedule, part_crawl_schedule.
  destruct (results 0), (results 1); split_and!; try reflexivity;
    cbn [got]; rewrite ?app_nil_r; reflexivity.
Qed.

Lemma part_run_events_app evs1 evs2 st :
  run_events (evs1 ++ evs2) st = run_events evs2 (run_events evs1 st).
Proof. apply fold_left_app. Qed.

(** An LLM answer nobody waits for changes nothing. *)
Lemma part_advanced_schedule_finished clock results reply st :
  pc (run_events (part_crawl_schedule clock results) st).1 = Finished ->
  run_events (part_advanced_schedule clock results reply) st
  = run_events (part_crawl_schedule clock results) st.
Proof.
  intros Hpc. unfold part_advanced_schedule. rewrite part_run_events_app.
  destruct (run_events (part_crawl_schedule clock results) st) as [t s].
  cbn [run_events fold_left fst snd]. by apply part_deliver_finished.
Qed.

(** The first event of a session is the start event, for good. *)
Lemma part_first_event new_id now body evs :
  head (events (run_events evs (start_session new_id now body)).2)
  = Some (mkEvent now
            (EvProgress 5
               (if default false (b_advancedMode body)
                then "Starting advanced crawl" else "Starting crawl"))).
Proof.
  destruct (part_run_events_appends evs (start_session new_id now body)) as [more ->].
  destruct body as [[[|]|] tok]; reflexivity.
Qed.

(** The jobs the ranking leaves aside are those whose id the answer
    does not list. *)
Lemma ranked_of_ids pool ids job :
  job ∈ ranked_of pool ids -> id job ∈ ids.
Proof.
  unfold ranked_of. intros (wanted & Hin & Hfind)%list_elem_of_omap.
  unfold find_by_id in Hfind. apply find_some in Hfind as [_ Heq].
  apply bool_decide_eq_true_1 in Heq. by subst.
Qed.

Lemma ranked_of_covers pool ids job :
  job ∈ pool -> id job ∈ ids -> exists r, r ∈ ranked_of pool ids /\ id r = id job.
Proof.
  intros Hjob Hid. unfold ranked_of.
  destruct (find_by_id pool (id job)) as [r|] eqn:Hfind.
  - exists r. split.
    + apply list_elem_of_omap. by exists (id job).
    + unfold find_by_id in Hfind. apply find_some in Hfind as [_ Heq].
      by apply bool_decide_eq_true_1 in Heq.
  - unfold find_by_id in Hfind.
    apply list_elem_of_In in Hjob. apply (find_none _ _ Hfind job) in Hjob.
    by apply bool_decide_eq_false_1 in Hjob.
Qed.

Lemma remainder_of_unreferenced pool ids :
  remainder_of pool (ranked_of pool ids)
  = List.filter (fun job => negb (bool_decide (id job ∈ ids))) pool.
Proof.
  unfold remainder_of. apply filter_ext_in. intros job Hjob%list_elem_of_In.
  f_equal. apply eq_true_iff_eq. rewrite existsb_exists, bool_decide_eq_true. split.
  - intros (r & Hr%list_elem_of_In & Heq%bool_decide_eq_true_1).
    rewrite <- Heq. by eapply ranked_of_ids.
  - intros Hid. destruct (ranked_of_covers pool ids job Hjob Hid) as (r & Hr & Heq).
    exists r. split; [by apply list_elem_of_In|]. by apply bool_decide_eq_true_2.
Qed.

Lemma research_parsed_jobs pool ids summary :
  a_jobs (research_settled pool (LlmParsed ids summary)) = take 30 (referenced_first ids pool).
Proof. cbn [research_settled a_jobs]. by rewrite remainder_of_unreferenced. Qed.

(** Every session completes, whatever the sources and the LLM answer. *)
Lemma part_run_summary new_id clock req results reply :
  let fin := run_events (part_advanced_schedule clock results reply)
               (start_session new_id (clock 0) req) in
  pc fin.1 = Finished /\ status fin.2 = completed /\
  allJobs fin.1 = got (results 0) ++ got (results 1) /\
  jobs fin.2 = part_final_jobs req (part_pool results) reply /\
  EvLog (part_source_line 0 (results 0)) ∈ body <$> events fin.2 /\
  EvLog (part_source_line 1 (results 1)) ∈ body <$> events fin.2.
Proof.
  intros fin. destruct req as [adv tok]. unfold part_final_jobs.
  cbn [b_advancedMode b_llmToken].
  destruct (default false adv) eqn:Hadv.
  - assert (adv = Some true) as -> by (by destruct adv as [[|]|]).
    destruct (decide (default "" tok = "")) as [Htok|Htok].
    + destruct (part_advanced_run_without_token new_id clock tok results Htok)
        as (Hpc & Hst & Hall & Hjobs & Hev).
      subst fin. rewrite part_advanced_schedule_finished by done.
      rewrite Hev. split_and!; try done; set_solver.
    + destruct tok as [tok|]; [|done]. cbn [default] in Htok.
      destruct (part_advanced_run new_id clock tok results reply Htok)
        as (Hpc & Hst & Hall & Hjobs & Hev).
      fold fin in Hpc, Hst, Hall, Hjobs, Hev.
      rewrite Hev. split_and!; try done; set_solver.
  - destruct (part_standard_run new_id clock adv tok results Hadv)
      as (Hpc & Hst & Hall & Hjobs & Hev).
    subst fin. rewrite part_advanced_schedule_finished by done.
    rewrite Hev. split_and!; try done; set_solver.
Qed.

Lemma got_without_source {A} i (results : nat -> Settled A) msg k :
  results i = Threw msg -> got (without_source i results k) = got (results k).
Proof. intros Hi. unfold without_source. case_decide; [subst; by rewrite Hi|done]. Qed.

Lemma part_pool_without_source i results msg :
  results i = Threw msg -> part_pool (without_source i results) = part_pool results.
Proof. intros Hi. unfold part_pool. by rewrite !(got_without_source i results msg). Qed.

End PartRunFacts.

(** ** The stable sort *)
Section SortFacts.
Context {A : Type}.

Lemma sort_insert_perm (cmp : A -> A -> Z) x l : Permutation (sort_insert cmp x l) (x :: l).
Proof.
  induction l as [|y l IH]; simpl; [done|].
  destruct (cmp x y <=? 0)%Z; [done|].
  rewrite IH. apply Permutation_swap.
Qed.

Lemma js_sort_perm (cmp : A -> A -> Z) l : Permutation (js_sort cmp l) l.
Proof.
  induction l as [|x l IH]; simpl; [done|].
  rewrite sort_insert_perm. by constructor.
Qed.

Lemma js_sort_length (cmp : A -> A -> Z) l : length (js_sort cmp l) = length l.
Proof. apply Permutation_length, js_sort_perm. Qed.

Lemma js_sort_nil (cmp : A -> A -> Z) l : js_sort cmp l = [] <-> l = [].
Proof.
  split; [|by intros ->].
  intros Hs. apply length_zero_iff_nil. rewrite <- (js_sort_length cmp), Hs. done.
Qed.

(** Sorting by a comparator [score b - score a]: scores descend, and
    jobs with equal scores keep their order. *)
Context (score : A -> Z).
Let desc (a b : A) : Z := (score b - score a)%Z.
Let above (a b : A) : Prop := (score b <= score a)%Z.

Lemma sort_insert_desc x l :
  StronglySorted above l -> StronglySorted above (sort_insert desc x l).
Proof.
  induction 1 as [|y l Hl IH Hy]; simpl; [repeat constructor|].
  unfold desc at 1. destruct (Z.leb_spec (score y - score x) 0) as [Hle|Hgt].
  - constructor; [by constructor|].
    constructor; [unfold above; lia|].
    eapply Forall_impl; [exact Hy|]. unfold above. intros z Hz. lia.
  - constructor; [exact IH|].
    eapply Permutation_Forall; [symmetry; apply sort_insert_perm|].
    constructor; [unfold above; lia|exact Hy].
Qed.

Lemma js_sort_desc l : StronglySorted above (js_sort desc l).
Proof. induction l as [|x l IH]; simpl; [constructor|by apply sort_insert_desc]. Qed.

Lemma sort_insert_stable v x l :
  List.filter (fun a => (score a =? v)%Z) (sort_insert desc x l)
  = List.filter (fun a => (score a =? v)%Z) (x :: l).
Proof.
  induction l as [|y l IH]; [done|].
  cbn [sort_insert]. unfold desc at 1.
  destruct (Z.leb_spec (score y - score x) 0) as [Hle|Hgt]; [done|].
  cbn [List.filter] in *.
  destruct (Z.eqb_spec (score y) v) as [Hy|Hy], (Z.eqb_spec (score x) v) as [Hx|Hx];
    try lia; rewrite IH; done.
Qed.

Lemma js_sort_stable v l :
  List.filter (fun a => (score a =? v)%Z) (js_sort desc l)
  = List.filter (fun a => (score a =? v)%Z) l.
Proof.
  induction l as [|x l IH]; [done|].
  cbn [js_sort foldr]. rewrite sort_insert_stable. cbn [List.filter].
  fold (js_sort desc l). by rewrite IH.
Qed.

End SortFacts.

(** ** [server.js]: the log and the run machine *)
Section ServerRunFacts.
Context `{JsRuntime}.
Import ServerJs.

Lemma addLog_logs now msg r :
  logs (addLog now msg r) =
    if decide (length (logs r) < 150) then logs r ++ [mkLog now msg]
    else drop 1 (logs r ++ [mkLog now msg]).
Proof.
  unfold addLog.
  destruct (Nat.ltb_spec 150 (length (logs r ++ [mkLog now msg]))) as [Hlt|Hle];
    rewrite length_app in *; change (length [mkLog now msg]) with 1 in *;
    case_decide; try lia; reflexivity.
Qed.

Lemma addLog_short now msg r :
  length (logs r) < 150 -> logs (addLog now msg r) = logs r ++ [mkLog now msg].
Proof. intros Hl. rewrite addLog_logs. by rewrite decide_True. Qed.

Lemma addLog_capped now msg r : server_log_capped r -> server_log_capped (addLog now msg r).
Proof.
  unfold server_log_capped. rewrite addLog_logs. case_decide.
  - rewrite length_app. simpl. lia.
  - rewrite length_drop, length_app. simpl. lia.
Qed.

Lemma pushUpdate_capped now r : server_log_capped r -> server_log_capped (pushUpdate now r).
Proof. done. Qed.
Lemma set_stage_capped v r : server_log_capped r -> server_log_capped (set_stage v r).
Proof. done. Qed.
Lemma set_progress_capped v r : server_log_capped r -> server_log_capped (set_progress v r).
Proof. done. Qed.
Lemma set_status_capped v r : server_log_capped r -> server_log_capped (set_status v r).
Proof. done. Qed.
Lemma set_jobs_capped v r : server_log_capped r -> server_log_capped (set_jobs v r).
Proof. done. Qed.
Lemma set_clients_capped v r : server_log_capped r -> server_log_capped (set_clients v r).
Proof. done. Qed.

Create HintDb capped.
#[local] Hint Resolve addLog_capped pushUpdate_capped set_stage_capped set_progress_capped
  set_status_capped set_jobs_capped set_clients_capped : capped.

Ltac run_cases :=
  repeat match goal with
  | |- context [match ?x !! ?i with _ => _ end] => destruct (x !! i)
  | |- context [match caller ?t with _ => _ end] => destruct (caller t)
  | |- context [match take ?n ?l with _ => _ end] => destruct (take n l)
  | |- context [if decide ?P then _ else _] => destruct (decide P)
  end.

Lemma complete_capped now t r : server_log_capped r -> server_log_capped (complete now t r).2.
Proof. unfold complete; cbn [snd]; auto 10 with capped. Qed.
Lemma after_crawl_capped now t r :
  server_log_capped r -> server_log_capped (after_crawl now t r).2.
Proof.
  intros. unfold after_crawl. run_cases; [apply complete_capped|cbn [snd]]; auto 10 with capped.
Qed.
Lemma finish_crawl_capped now t r :
  server_log_capped r -> server_log_capped (finish_crawl now t r).2.
Proof.
  intros. unfold finish_crawl.
  run_cases; [apply complete_capped|apply after_crawl_capped]; auto 10 with capped.
Qed.
Lemma enter_source_capped now i t r :
  server_log_capped r -> server_log_capped (enter_source now i t r).2.
Proof.
  intros. unfold enter_source.
  run_cases; [cbn [snd]|apply finish_crawl_capped]; auto 10 with capped.
Qed.
Lemma enter_stage_capped now i t r :
  server_log_capped r -> server_log_capped (enter_stage now i t r).2.
Proof.
  intros. unfold enter_stage.
  run_cases; [cbn [snd]|apply enter_source_capped]; auto 10 with capped.
Qed.
Lemma startRun_capped now r tok : server_log_capped r -> server_log_capped (startRun now r tok).2.
Proof.
  intros. unfold startRun, fail_run. run_cases; cbn [snd];
  [|apply enter_stage_capped|apply enter_source_capped]; auto 10 with capped.
Qed.
Lemma deliver_capped now ev st : server_log_capped st.2 -> server_log_capped (deliver now ev st).2.
Proof.
  destruct st as [t r]; cbn [snd]; intros Hr. unfold deliver, attach, detach.
  destruct ev as [|[found|msg]|[msg|ins]|c|c], (pc t); cbn [snd]; try done;
    first [apply enter_stage_capped | apply enter_source_capped | apply complete_capped | idtac];
    auto 10 with capped.
Qed.
Lemma run_events_capped evs st :
  server_log_capped st.2 -> server_log_capped (run_events evs st).2.
Proof.
  revert st; induction evs as [|[now ev] evs IH]; intros st Hst; [done|].
  apply IH, deliver_capped, Hst.
Qed.

(** [startRun] by mode and token. *)
Lemma startRun_standard now r tok :
  mode r <> "advanced" ->
  startRun now r tok =
    enter_source now 0 (mkTask Finished FromStartRun [] tok)
      (addLog now ("Starting " +:+ mode r +:+ " crawl…") r).
Proof. intros Hm. unfold startRun. by rewrite decide_False. Qed.

Lemma startRun_without_token now r :
  mode r = "advanced" ->
  startRun now r "" =
    fail_run now "Advanced mode requires llmToken." (mkTask Finished FromStartRun [] "")
      (addLog now ("Starting " +:+ mode r +:+ " crawl…") r).
Proof. intros Hm. unfold startRun. rewrite decide_True by done. by rewrite decide_True. Qed.

(** The complete trace of a run in standard mode. *)
Lemma server_standard_run new_id clock m tok results :
  m <> "advanced" ->
  let fin := run_events (server_standard_schedule clock results)
               (server_launch new_id (clock 0) m tok) in
  pc fin.1 = Finished /\ status fin.2 = completed /\ progress fin.2 = 100%Z /\
  allJobs fin.1 = got (results 0) ++ got (results 1) /\
  jobs fin.2 = server_pool results /\
  logs fin.2 =
    [ mkLog (clock 0) ("Starting " +:+ m +:+ " crawl…");
      mkLog (clock 0) "Scanning RemoteOK API…";
      mkLog (clock 1) (server_source_line 0 (results 0));
      mkLog (clock 1) "Scanning WeWorkRemotely jobs feed…";
      mkLog (clock 2) (server_source_line 1 (results 1)) ].
Proof.
  intros Hm fin; subst fin. unfold server_launch.
  rewrite startRun_standard by done.
  unfold server_pool, server_standard_schedule.
  destruct (results 0), (results 1); split_and!; try reflexivity;
    cbn [got]; rewrite ?app_nil_r; reflexivity.
Qed.

(** The turn that ends the crawl of an advanced run: the jobs are
    deduplicated and sorted by title, and the task goes on to the LLM
    call unless there is no job. *)
Lemma deliver_last_source_advanced now result t r :
  pc t = AwaitSource 1 -> caller t = FromLangGraph ->
  let st := deliver now (SourceSettled result) (t, r) in
  let pool := js_sort by_title (dedupeJobs (allJobs t ++ got result)) in
  let logged := addLog now (server_source_line 1 result) r in
  allJobs st.1 = allJobs t ++ got result /\
  jobs st.2 = pool /\
  (pool <> [] ->
     pc st.1 = AwaitLLM /\ status st.2 = status r /\ progress st.2 = 95%Z /\
     logs st.2 = logs logged) /\
  (pool = [] ->
     pc st.1 = Finished /\ status st.2 = completed /\ progress st.2 = 100%Z /\
     logs st.2 = logs (addLog now "No jobs available for LLM synthesis." logged)).
Proof.
  intros Hpc Hcaller st pool logged; subst st pool logged.
  unfold deliver. rewrite Hpc.
  destruct result as [found|msg]; cbn [got server_source_line];
    unfold enter_source; cbn [lookup list_lookup sources];
    unfold finish_crawl; cbn [caller allJobs]; rewrite ?Hcaller, ?app_nil_r;
    unfold after_crawl;
    match goal with |- context [js_sort by_title ?l] =>
      destruct (js_sort by_title l) as [|j pool] eqn:Hpool end;
    cbn [jobs pushUpdate set_clients set_jobs set_progress set_stage take length];
    (split_and!; [reflexivity|reflexivity|intros Hne; try done|intros Heq; try done]);
    split_and!; reflexivity.
Qed.

(** The turn in which the LLM call settles. *)
Lemma deliver_llm_threw now msg t r :
  pc t = AwaitLLM ->
  let st := deliver now (LlmSettled (LlmThrew msg)) (t, r) in
  pc st.1 = Finished /\ status st.2 = completed /\ progress st.2 = 100%Z /\
  jobs st.2 = jobs r /\
  logs st.2 = logs (addLog now ("LLM synthesis skipped: " +:+ msg) r).
Proof. intros Hpc st; subst st. unfold deliver. rewrite Hpc. done. Qed.

Lemma deliver_llm_insights now insights t r :
  pc t = AwaitLLM ->
  let st := deliver now (LlmSettled (LlmInsights insights)) (t, r) in
  pc st.1 = Finished /\ status st.2 = completed /\ progress st.2 = 100%Z /\
  jobs st.2 = js_sort by_fit_desc (map (annotate (insightMap insights)) (jobs r)) /\
  logs st.2 =
    logs (addLog now "LLM synthesis complete: jobs scored with fitScore and rationale." r).
Proof.
  intros Hpc st; subst st. unfold deliver. rewrite Hpc. split_and!; reflexivity.
Qed.

(** An advanced run up to the fetch of the second source. *)
Lemma server_advanced_prefix new_id clock tok results :
  tok <> "" ->
  let st := run_events
              [ (clock 1, TimerFired); (clock 2, TimerFired); (clock 3, TimerFired);
                (clock 4, TimerFired); (clock 5, SourceSettled (results 0)) ]
              (server_launch new_id (clock 0) "advanced" tok) in
  pc st.1 = AwaitSource 1 /\ caller st.1 = FromLangGraph /\
  allJobs st.1 = got (results 0) /\ status st.2 = running /\
  logs st.2 =
    [ mkLog (clock 0) "Starting advanced crawl…";
      mkLog (clock 0) "Advanced mode selected: initializing LangGraph-style research pipeline.";
      mkLog (clock 4) "Scanning RemoteOK API…";
      mkLog (clock 5) (server_source_line 0 (results 0));
      mkLog (clock 5) "Scanning WeWorkRemotely jobs feed…" ].
Proof.
  intros Htok st; subst st. destruct tok as [|c tok]; [done|].
  destruct (results 0); split_and!; reflexivity.
Qed.

Lemma server_run_events_app evs1 evs2 st :
  run_events (evs1 ++ evs2) st = run_events evs2 (run_events evs1 st).
Proof. apply fold_left_app. Qed.

Lemma server_advanced_schedule_split clock results reply st :
  run_events (server_advanced_schedule clock results reply) st =
  deliver (clock 7) (LlmSettled reply)
    (deliver (clock 6) (SourceSettled (results 1))
       (run_events
          [ (clock 1, TimerFired); (clock 2, TimerFired); (clock 3, TimerFired);
            (clock 4, TimerFired); (clock 5, SourceSettled (results 0)) ] st)).
Proof.
  change (server_advanced_schedule clock results reply) with
    ([ (clock 1, TimerFired); (clock 2, TimerFired); (clock 3, TimerFired);
       (clock 4, TimerFired); (clock 5, SourceSettled (results 0)) ]
     ++ [ (clock 6, SourceSettled (results 1)); (clock 7, LlmSettled reply) ]).
  rewrite server_run_events_app. reflexivity.
Qed.

(** The complete trace of an advanced run that reaches the LLM call. *)
Lemma server_advanced_run new_id clock tok results reply :
  tok <> "" -> server_pool results <> [] ->
  let fin := run_events (server_advanced_schedule clock results reply)
               (server_launch new_id (clock 0) "advanced" tok) in
  pc fin.1 = Finished /\ status fin.2 = completed /\ progress fin.2 = 100%Z /\
  jobs fin.2 = server_llm_jobs reply (server_pool results) /\
  logs fin.2 =
    [ mkLog (clock 0) "Starting advanced crawl…";
      mkLog (clock 0) "Advanced mode selected: initializing LangGraph-style research pipeline.";
      mkLog (clock 4) "Scanning RemoteOK API…";
      mkLog (clock 5) (server_source_line 0 (results 0));
      mkLog (clock 5) "Scanning WeWorkRemotely jobs feed…";
      mkLog (clock 6) (server_source_line 1 (results 1));
      mkLog (clock 7) (server_llm_line reply) ].
Proof.
  intros Htok Hpool fin.
  destruct (server_advanced_prefix new_id clock tok results Htok)
    as (Hpc & Hcaller & Hall & Hstatus & Hlogs).
  subst fin. rewrite (server_advanced_schedule_split clock results reply).
  destruct (run_events _ (server_launch new_id (clock 0) "advanced" tok)) as [t5 r5].
  cbn [fst snd] in *.
  destruct (deliver_last_source_advanced (clock 6) (results 1) t5 r5 Hpc Hcaller)
    as (_ & Hjobs & Hsome & _).
  rewrite Hall in Hjobs, Hsome. fold (server_pool results) in Hjobs, Hsome.
  destruct (Hsome Hpool) as (Hpc6 & Hst6 & _ & Hlogs6).
  rewrite addLog_short, Hlogs in Hlogs6 by (rewrite Hlogs; cbn; lia).
  destruct (deliver (clock 6) _ (t5, r5)) as [t6 r6]. cbn [fst snd] in *.
  destruct reply as [msg|insights].
  - destruct (deliver_llm_threw (clock 7) msg t6 r6 Hpc6) as (? & ? & ? & Hj & Hl).
    rewrite addLog_short, Hlogs6 in Hl by (rewrite Hlogs6; cbn; lia).
    rewrite Hjobs in Hj. done.
  - destruct (deliver_llm_insights (clock 7) insights t6 r6 Hpc6) as (? & ? & ? & Hj & Hl).
    rewrite addLog_short, Hlogs6 in Hl by (rewrite Hlogs6; cbn; lia).
    rewrite Hjobs in Hj. done.
Qed.

(** An advanced run whose crawl found nothing never calls the LLM. *)
Lemma server_advanced_run_empty new_id clock tok results reply :
  tok <> "" -> server_pool results = [] ->
  let fin := run_events (server_advanced_schedule clock results reply)
               (server_launch new_id (clock 0) "advanced" tok) in
  pc fin.1 = Finished /\ status fin.2 = completed /\ progress fin.2 = 100%Z /\
  jobs fin.2 = [] /\
  logs fin.2 =
    [ mkLog (clock 0) "Starting advanced crawl…";
      mkLog (clock 0) "Advanced mode selected: initializing LangGraph-style research pipeline.";
      mkLog (clock 4) "Scanning RemoteOK API…";
      mkLog (clock 5) (server_source_line 0 (results 0));
      mkLog (clock 5) "Scanning WeWorkRemotely jobs feed…";
      mkLog (clock 6) (server_source_line 1 (results 1));
      mkLog (clock 6) "No jobs available for LLM synthesis." ].
Proof.
  intros Htok Hpool fin.
  destruct (server_advanced_prefix new_id clock tok results Htok)
    as (Hpc & Hcaller & Hall & Hstatus & Hlogs).
  subst fin. rewrite (server_advanced_schedule_split clock results reply).
  destruct (run_events _ (server_launch new_id (clock 0) "advanced" tok)) as [t5 r5].
  cbn [fst snd] in *.
  destruct (deliver_last_source_advanced (clock 6) (results 1) t5 r5 Hpc Hcaller)
    as (_ & Hjobs & _ & Hnone).
  rewrite Hall in Hjobs, Hnone. fold (server_pool results) in Hjobs, Hnone.
  destruct (Hnone Hpool) as (Hpc6 & Hst6 & Hprog6 & Hlogs6).
  destruct (deliver (clock 6) _ (t5, r5)) as [t6 r6]. cbn [fst snd] in *.
  assert (deliver (clock 7) (LlmSettled reply) (t6, r6) = (t6, r6)) as ->
    by (unfold deliver; rewrite Hpc6; by destruct reply).
  cbn [fst snd]. split_and!; [done|done|done|congruence|].
  assert (logs (addLog (clock 6) (server_source_line 1 (results 1)) r5)
          = logs r5 ++ [mkLog (clock 6) (server_source_line 1 (results 1))]) as Hl5
    by (apply addLog_short; rewrite Hlogs; cbn; lia).
  rewrite Hlogs6, addLog_short, Hl5, Hlogs by (rewrite Hl5, Hlogs; cbn; lia).
  reflexivity.
Qed.

(** Every advanced run with a token completes. *)
Lemma server_advanced_summary new_id clock tok results reply :
  tok <> "" ->
  let fin := run_events (server_advanced_schedule clock results reply)
               (server_launch new_id (clock 0) "advanced" tok) in
  pc fin.1 = Finished /\ status fin.2 = completed /\ progress fin.2 = 100%Z /\
  jobs fin.2 = server_llm_jobs reply (server_pool results) /\
  mkLog (clock 5) (server_source_line 0 (results 0)) ∈ logs fin.2 /\
  mkLog (clock 6) (server_source_line 1 (results 1)) ∈ logs fin.2.
Proof.
  intros Htok fin. destruct (decide (server_pool results = [])) as [Hpool|Hpool].
  - destruct (server_advanced_run_empty new_id clock tok results reply Htok Hpool)
      as (? & ? & ? & Hj & Hl).
    fold fin in Hj, Hl. rewrite Hl, Hj, Hpool.
    split_and!; try done; [by destruct reply| |]; clear; in_list.
  - destruct (server_advanced_run new_id clock tok results reply Htok Hpool)
      as (? & ? & ? & Hj & Hl).
    fold fin in Hj, Hl. rewrite Hl, Hj. split_and!; try done; clear; in_list.
Qed.

Lemma server_pool_without_source i results msg :
  results i = Threw msg -> server_pool (without_source i results) = server_pool results.
Proof. intros Hi. unfold server_pool. by rewrite !(got_without_source i results msg). Qed.

End ServerRunFacts.

(** ** Observers *)
Section PartStreamFacts.
Context `{JsRuntime}.
Import Part000.

Lemma pushPendingEvents_sent s o :
  sent o = take (eventIndex o) (events s) -> eventIndex o <= length (events s) ->
  sent (pushPendingEvents s o) = events s /\
  eventIndex (pushPendingEvents s o) = length (events s).
Proof.
  intros Hsent Hidx. unfold pushPendingEvents.
  destruct (terminal (status s)); cbn [sent eventIndex];
    rewrite Hsent, take_drop; split; [done|lia|done|lia].
Qed.

Lemma pushPendingEvents_ended s o :
  ended (pushPendingEvents s o) = terminal (status s) || ended o.
Proof. unfold pushPendingEvents. by destruct (terminal (status s)). Qed.

Lemma part_open_stream_inv t s :
  part_run_inv (t, s) ->
  part_stream_inv (t, s, pushPendingEvents s (mkStream 0 [] false true)).
Proof.
  intros Hinv. unfold part_stream_inv. cbn [fst snd].
  destruct (pushPendingEvents_sent s (mkStream 0 [] false true)) as [Hs Hi];
    [done|cbn; lia|].
  rewrite Hs, Hi, firstn_all. split_and!; [done|done|done|].
  rewrite pushPendingEvents_ended. cbn [ended]. rewrite orb_false_r.
  intros Hterm. split_and!; [|done|].
  - apply (part_inv_completed (t, s)); [done|].
    unfold part_run_inv in Hinv. cbn [fst snd] in *.
    destruct (pc t); [destruct Hinv as (_ & Hr & _)|destruct Hinv as (Hr & _)|tauto];
      rewrite Hr in Hterm; done.
  - unfold pushPendingEvents. by rewrite Hterm.
Qed.

Lemma part_observe_inv ev st : part_stream_inv st -> part_stream_inv (observe ev st).
Proof.
  destruct st as [[t s] o]. unfold part_stream_inv. cbn [fst snd].
  intros (Hinv & Hsent & Hidx & Hend).
  destruct ev as [now r| |]; cbn [observe].
  - pose proof (part_deliver_inv now r (t, s) Hinv) as Hinv'.
    destruct (part_deliver_appends now r (t, s)) as [more Hmore].
    destruct (ended o) eqn:Ho.
    + destruct Hend as (Hpc & Hi & Ht); [done|].
      rewrite (part_deliver_finished now r t s Hpc). cbn [fst snd]. done.
    + destruct (deliver now r (t, s)) as [t' s']. cbn [fst snd] in *.
      rewrite Hmore. split_and!; [done| | |intros ?; congruence].
      * rewrite take_app_le by done. done.
      * rewrite length_app. lia.
  - destruct (timer o) eqn:Ht; cbn [fst snd];
      [|split_and!; auto; intros Ho; destruct (Hend Ho) as (? & ? & _); done].
    destruct (pushPendingEvents_sent s o Hsent Hidx) as [Hs Hi].
    rewrite Hs, Hi, firstn_all. split_and!; [done|done|done|].
    rewrite pushPendingEvents_ended. intros Hor. split_and!; [|done|].
    + apply orb_true_iff in Hor as [Hterm|Ho]; [|by apply Hend].
      apply (part_inv_completed (t, s)); [done|].
      unfold part_run_inv in Hinv. cbn [fst snd] in *.
      destruct (pc t); [destruct Hinv as (_ & Hr & _)|destruct Hinv as (Hr & _)|tauto];
        rewrite Hr in Hterm; done.
    + apply orb_true_iff in Hor as [Hterm|Ho].
      * unfold pushPendingEvents. by rewrite Hterm.
      * destruct Hend as (_ & _ & Htimer); [done|]. congruence.
  - cbn [fst snd sent eventIndex ended timer]. split_and!; try done.
    intros Ho. destruct (Hend Ho) as (? & ? & ?). done.
Qed.

Lemma part_observe_all_inv evs st : part_stream_inv st -> part_stream_inv (observe_all evs st).
Proof.
  revert st; induction evs as [|ev evs IH]; intros st Hst; [done|].
  apply IH, part_observe_inv, Hst.
Qed.

(** The server never reopens a response it ended. *)
Lemma part_observe_all_stays_ended evs st :
  ended st.2 = true -> ended (observe_all evs st).2 = true.
Proof.
  revert st; induction evs as [|ev evs IH]; intros [[t s] o] Ho; [done|].
  cbn [observe_all fold_left]. fold (observe_all evs (observe ev (t, s, o))).
  cbn [snd] in Ho. apply IH.
  destruct ev as [now r| |]; cbn [observe].
  - by destruct (deliver now r (t, s)).
  - destruct (timer o); [|done]. cbn [snd].
    rewrite pushPendingEvents_ended, Ho. apply orb_true_r.
  - done.
Qed.

(** Unless the client goes away, the interval timer stays set until the
    server ends the response. *)
Lemma part_observe_all_timer evs st :
  Closed ∉ evs -> timer st.2 = true ->
  ended (observe_all evs st).2 = false -> timer (observe_all evs st).2 = true.
Proof.
  revert st; induction evs as [|ev evs IH]; intros [[t s] o] Hnc Ht; [done|].
  cbn [observe_all fold_left]. fold (observe_all evs (observe ev (t, s, o))).
  cbn [snd] in Ht.
  destruct ev as [now r| |].
  - cbn [observe]. destruct (deliver now r (t, s)) as [t' s'] eqn:Hd.
    apply IH; [set_solver|done].
  - cbn [observe]. rewrite Ht. unfold pushPendingEvents.
    destruct (terminal (status s)) eqn:Hterm.
    + intros Hfin. rewrite part_observe_all_stays_ended in Hfin; done.
    + apply IH; [set_solver|done].
  - set_solver.
Qed.

End PartStreamFacts.

Section ServerClientFacts.
Context `{JsRuntime}.
Import ServerJs.

Lemma pushUpdate_open now r : server_streams_open r -> server_streams_open (pushUpdate now r).
Proof.
  unfold server_streams_open, pushUpdate. cbn [clients set_clients].
  intros Hall. apply Forall_map. eapply Forall_impl; [exact Hall|]. done.
Qed.
Lemma addLog_open now msg r : server_streams_open r -> server_streams_open (addLog now msg r).
Proof. intros Hr. unfold addLog. by apply pushUpdate_open. Qed.
Lemma set_stage_open v r : server_streams_open r -> server_streams_open (set_stage v r).
Proof. done. Qed.
Lemma set_progress_open v r : server_streams_open r -> server_streams_open (set_progress v r).
Proof. done. Qed.
Lemma set_status_open v r : server_streams_open r -> server_streams_open (set_status v r).
Proof. done. Qed.
Lemma set_jobs_open v r : server_streams_open r -> server_streams_open (set_jobs v r).
Proof. done. Qed.
Lemma attach_open now c r : server_streams_open r -> server_streams_open (attach now c r).
Proof.
  intros Hr. unfold attach. apply pushUpdate_open. unfold server_streams_open in *.
  cbn [clients set_clients]. destruct (existsb _ _); [done|].
  apply Forall_app. split; [done|]. by constructor.
Qed.
Lemma detach_open c r : server_streams_open r -> server_streams_open (detach c r).
Proof.
  unfold server_streams_open, detach. cbn [clients set_clients]. intros Hr.
  rewrite Forall_forall in *. intros k Hk%list_elem_of_filter.
  apply Hr, Hk.
Qed.

Create HintDb streams.
#[local] Hint Resolve pushUpdate_open addLog_open set_stage_open set_progress_open
  set_status_open set_jobs_open attach_open detach_open : streams.

Ltac open_cases :=
  repeat match goal with
  | |- context [match ?x !! ?i with _ => _ end] => destruct (x !! i)
  | |- context [match caller ?t with _ => _ end] => destruct (caller t)
  | |- context [match take ?n ?l with _ => _ end] => destruct (take n l)
  | |- context [if decide ?P then _ else _] => destruct (decide P)
  end.

Lemma complete_open now t r : server_streams_open r -> server_streams_open (complete now t r).2.
Proof. unfold complete; cbn [snd]; auto 10 with streams. Qed.
Lemma after_crawl_open now t r :
  server_streams_open r -> server_streams_open (after_crawl now t r).2.
Proof.
  intros. unfold after_crawl. open_cases; [apply complete_open|cbn [snd]]; auto 10 with streams.
Qed.
Lemma finish_crawl_open now t r :
  server_streams_open r -> server_streams_open (finish_crawl now t r).2.
Proof.
  intros. unfold finish_crawl.
  open_cases; [apply complete_open|apply after_crawl_open]; auto 10 with streams.
Qed.
Lemma enter_source_open now i t r :
  server_streams_open r -> server_streams_open (enter_source now i t r).2.
Proof.
  intros. unfold enter_source.
  open_cases; [cbn [snd]|apply finish_crawl_open]; auto 10 with streams.
Qed.
Lemma enter_stage_open now i t r :
  server_streams_open r -> server_streams_open (enter_stage now i t r).2.
Proof.
  intros. unfold enter_stage.
  open_cases; [cbn [snd]|apply enter_source_open]; auto 10 with streams.
Qed.
Lemma deliver_open now ev st :
  server_streams_open st.2 -> server_streams_open (deliver now ev st).2.
Proof.
  destruct st as [t r]; cbn [snd]; intros Hr. unfold deliver.
  destruct ev as [|[found|msg]|[msg|ins]|c|c], (pc t); cbn [snd]; try done;
    first [apply enter_stage_open | apply enter_source_open | apply complete_open | idtac];
    auto 10 with streams.
Qed.
Lemma run_events_open evs st :
  server_streams_open st.2 -> server_streams_open (run_events evs st).2.
Proof.
  revert st; induction evs as [|[now ev] evs IH]; intros st Hst; [done|].
  apply IH, deliver_open, Hst.
Qed.
Lemma server_launch_open new_id now m tok :
  server_streams_open (server_launch new_id now m tok).2.
Proof.
  unfold server_launch, startRun, fail_run.
  assert (server_streams_open (createRun new_id now m)) by constructor.
  open_cases; cbn [snd];
    [|apply enter_stage_open|apply enter_source_open]; auto 10 with streams.
Qed.

(** A response that attaches is written the snapshot of the run as it
    is, and nothing before it. *)
Lemma attach_first_message now c r :
  c ∉ cid <$> clients r ->
  clients (attach now c r) =
    map (res_write (snapshot now r)) (clients r) ++ [mkClient c [snapshot now r] false].
Proof.
  intros Hfresh. unfold attach.
  assert (existsb (fun k => Nat.eqb (cid k) c) (clients r) = false) as ->.
  { apply not_true_is_false. intros (k & Hk & Heq)%existsb_exists.
    apply Nat.eqb_eq in Heq. apply Hfresh. apply list_elem_of_fmap.
    exists k. split; [done|]. by apply list_elem_of_In. }
  unfold pushUpdate. cbn [clients set_clients]. rewrite map_app. reflexivity.
Qed.

Lemma pushUpdate_current now r : server_clients_current (pushUpdate now r).
Proof.
  unfold server_clients_current, pushUpdate. cbn [clients set_clients].
  apply Forall_map, Forall_true. intros k. exists now. cbn [written res_write].
  by rewrite last_snoc.
Qed.
Lemma addLog_current now msg r : server_clients_current (addLog now msg r).
Proof. unfold addLog. apply pushUpdate_current. Qed.
Lemma attach_current now c r : server_clients_current (attach now c r).
Proof. unfold attach. apply pushUpdate_current. Qed.
Lemma detach_current c r : server_clients_current r -> server_clients_current (detach c r).
Proof.
  unfold server_clients_current, detach. cbn [clients set_clients]. intros Hr.
  rewrite Forall_forall in *. intros k Hk%list_elem_of_filter.
  destruct (Hr k) as [at_ Hat]; [apply Hk|]. by exists at_.
Qed.
Lemma complete_current now t r : server_clients_current (complete now t r).2.
Proof. unfold complete; cbn [snd]; apply pushUpdate_current. Qed.
Lemma after_crawl_current now t r : server_clients_current (after_crawl now t r).2.
Proof.
  unfold after_crawl. open_cases; [apply complete_current|cbn [snd]; apply pushUpdate_current].
Qed.
Lemma finish_crawl_current now t r : server_clients_current (finish_crawl now t r).2.
Proof.
  unfold finish_crawl. open_cases; [apply complete_current|apply after_crawl_current].
Qed.
Lemma enter_source_current now i t r : server_clients_current (enter_source now i t r).2.
Proof.
  unfold enter_source. open_cases; [cbn [snd]; apply addLog_current|apply finish_crawl_current].
Qed.
Lemma enter_stage_current now i t r : server_clients_current (enter_stage now i t r).2.
Proof.
  unfold enter_stage. open_cases; [cbn [snd]; apply pushUpdate_current|apply enter_source_current].
Qed.
Lemma deliver_current now ev st :
  server_clients_current st.2 -> server_clients_current (deliver now ev st).2.
Proof.
  destruct st as [t r]; cbn [snd]; intros Hr. unfold deliver.
  destruct ev as [|[found|msg]|[msg|ins]|c|c], (pc t); cbn [snd]; try done;
    first [apply enter_stage_current | apply enter_source_current | apply complete_current
          | apply attach_current | by apply detach_current].
Qed.
Lemma run_events_current evs st :
  server_clients_current st.2 -> server_clients_current (run_events evs st).2.
Proof.
  revert st; induction evs as [|[now ev] evs IH]; intros st Hst; [done|].
  apply IH, deliver_current, Hst.
Qed.
Lemma server_launch_current new_id now m tok :
  server_clients_current (server_launch new_id now m tok).2.
Proof.
  unfold server_launch, startRun, fail_run.
  open_cases; cbn [snd];
    [apply pushUpdate_current|apply enter_stage_current|apply enter_source_current].
Qed.

End ServerClientFacts.

(** * The claims *)
Section ClaimC1.
Context `{JsRuntime}.

(** C1, at the failing input.  In [server.js] every advanced run with a
    token takes [progress] back from 30 to 0: a client attached right
    after the start is written the progress values 0, 10, 20, 30 of the
    graph stages and then 0, when [runStandardCrawl] starts over with
    its own band. *)
Theorem C1_advanced_progress_falls_back new_id clock c tok :
  map (fun k => map ServerJs.p_progress (ServerJs.written k))
      (ServerJs.clients (watched_advanced_run new_id clock c tok).2)
  = [ [0; 10; 20; 30; 0; 0]%Z ].
Proof. reflexivity. Qed.

End ClaimC1.

Section ClaimC2.
Context `{JsRuntime}.

(** C2, as the code has it.  Neither variant refuses an advanced start
    without a credential: both answer 202 with the identifier and store
    the run.  [server.js] refuses (400, nothing stored) only a mode that
    is neither "standard" nor "advanced"; its run without a token ends
    at once as failed, with "Advanced mode requires llmToken." as last
    log line.  The session of [part_000] completes with the first 30
    deduplicated jobs and a note that no token was given. *)
Theorem C2_advanced_without_token_is_started :
  (forall new_id now body (reg : gmap string ServerJs.Run),
     ServerJs.b_mode body = Some "advanced" ->
     default "" (ServerJs.b_llmToken body) = "" ->
     exists r t,
       ServerJs.post_start new_id now body reg
         = (ReplyAccepted 202 new_id, <[new_id := r]> reg, Some t) /\
       ServerJs.pc t = ServerJs.Finished /\
       ServerJs.status r = ServerJs.failed /\
       ServerJs.progress r = 0%Z /\ ServerJs.jobs r = [] /\
       ServerJs.logs r =
         [ ServerJs.mkLog now "Starting advanced crawl…";
           ServerJs.mkLog now "Advanced mode requires llmToken." ]) /\
  (forall new_id now body (reg : gmap string ServerJs.Run),
     default "standard" (ServerJs.b_mode body) ∉ ["standard"; "advanced"] ->
     ServerJs.post_start new_id now body reg
       = (ReplyError 400 "mode must be either 'standard' or 'advanced'.", reg, None)) /\
  (forall new_id clock body (reg : gmap string Part000.Session) results,
     Part000.b_advancedMode body = Some true ->
     default "" (Part000.b_llmToken body) = "" ->
     let started := Part000.start_session new_id (clock 0) body in
     let fin := Part000.run_events (part_crawl_schedule clock results) started in
     Part000.post_start new_id (clock 0) body reg
       = (ReplyAccepted 202 new_id, <[new_id := started.2]> reg, started.1) /\
     Part000.status fin.2 = Part000.completed /\
     Part000.jobs fin.2 = take 30 (part_pool results) /\
     Part000.EvLog
       (String.concat " | "
          (Part000.graph_notes
           ++ ["No LLM API token provided. Returned heuristic ranking only."]))
       ∈ Part000.body <$> Part000.events fin.2).
Proof.
  split_and!.
  - intros new_id now [m tok] reg Hm Htok. cbn in Hm, Htok. subst m.
    unfold ServerJs.post_start. cbn [ServerJs.b_mode ServerJs.b_llmToken default].
    rewrite Htok. eexists _, _. split; [reflexivity|]. split_and!; reflexivity.
  - intros new_id now body reg Hm. unfold ServerJs.post_start.
    rewrite bool_decide_eq_false_2 by done. reflexivity.
  - intros new_id clock [adv tok] reg results Hadv Htok started fin. cbn in Hadv, Htok.
    subst adv.
    destruct (part_advanced_run_without_token new_id clock tok results Htok)
      as (_ & Hst & _ & Hjobs & Hev).
    fold started in Hst, Hjobs, Hev. fold fin in Hst, Hjobs, Hev.
    split_and!; [|done|done|].
    + unfold Part000.post_start. fold started. by destruct started.
    + rewrite Hev. set_solver.
Qed.

End ClaimC2.

(** C2: the statement is applied to a request without [llmToken]. *)
Lemma C2_witness :
  exists r t,
    ServerJs.post_start (H := ascii_runtime) "run-1" "t0"
      (ServerJs.mkStartBody (Some "advanced") None) ∅
      = (ReplyAccepted 202 "run-1", <["run-1" := r]> ∅, Some t) /\
    ServerJs.pc t = ServerJs.Finished /\
    ServerJs.status r = ServerJs.failed /\
    ServerJs.progress r = 0%Z /\ ServerJs.jobs r = [] /\
    ServerJs.logs r =
      [ ServerJs.mkLog "t0" "Starting advanced crawl…";
        ServerJs.mkLog "t0" "Advanced mode requires llmToken." ].
Proof.
  apply (proj1 (@C2_advanced_without_token_is_started ascii_runtime)); reflexivity.
Defined.

(** C2 fails as stated: an advanced start without a credential gets 202
    and a stored run in both variants; no 400 is answered. *)
Lemma C2_start_without_token_is_accepted :
  let out :=
    ServerJs.post_start (H := ascii_runtime) "run-1" "t0"
      (ServerJs.mkStartBody (Some "advanced") None) ∅ in
  let out' :=
    Part000.post_start (H := ascii_runtime) "s-1" "t0"
      (Part000.mkStartBody (Some true) None) ∅ in
  out.1.1 = ReplyAccepted 202 "run-1" /\
  ServerJs.status <$> (out.1.2 !! "run-1") = Some ServerJs.failed /\
  out'.1.1 = ReplyAccepted 202 "s-1" /\
  Part000.status <$> (out'.1.2 !! "s-1") = Some Part000.running.
Proof. split_and!; vm_compute; reflexivity. Qed.


Section ClaimC8.
Context `{JsRuntime}.

(** C8.  The record sequence of a run never exceeds the cap of 150.
    In [server.js] [addLog] appends while there is room and drops the
    oldest line when the log holds 150, so no state of a run holds
    more.  In [part_000] [pushEvent] appends and a run pushes at most
    nine events, so the list of a session never comes near the cap and
    nothing is ever appended to a full one. *)
Theorem C8_log_capped_events_only_appended :
  (forall now msg (r : ServerJs.Run),
     (length (ServerJs.logs r) < 150 ->
        ServerJs.logs (ServerJs.addLog now msg r)
          = ServerJs.logs r ++ [ServerJs.mkLog now msg]) /\
     (length (ServerJs.logs r) = 150 ->
        ServerJs.logs (ServerJs.addLog now msg r)
          = drop 1 (ServerJs.logs r) ++ [ServerJs.mkLog now msg]) /\
     (length (ServerJs.logs r) <= 150 ->
        length (ServerJs.logs (ServerJs.addLog now msg r)) <= 150)) /\
  (forall new_id now m tok evs,
     length (ServerJs.logs
               (ServerJs.run_events evs (server_launch new_id now m tok)).2) <= 150) /\
  (forall now ev (s : Part000.Session),
     Part000.events (Part000.pushEvent now ev s)
       = Part000.events s ++ [Part000.mkEvent now ev]) /\
  (forall new_id now body evs,
     length (Part000.events
               (Part000.run_events evs (Part000.start_session new_id now body)).2) <= 9).
Proof.
  split_and!.
  - intros now msg r. split_and!.
    + apply addLog_short.
    + intros Hlen. rewrite addLog_logs, decide_False by lia.
      destruct (ServerJs.logs r); [done|]. reflexivity.
    + apply addLog_capped.
  - intros new_id now m tok evs. apply run_events_capped.
    unfold server_launch. apply startRun_capped. unfold server_log_capped. cbn. lia.
  - reflexivity.
  - intros new_id now body evs.
    apply part_events_within_le, part_run_events_within, part_start_within.
Qed.

End ClaimC8.

(** C8: the statement is applied to a log that is full. *)
Lemma C8_witness :
  ServerJs.logs (ServerJs.addLog "t1" "one more" crowded_run)
  = drop 1 (ServerJs.logs crowded_run) ++ [ServerJs.mkLog "t1" "one more"].
Proof.
  apply (proj1 (@C8_log_capped_events_only_appended ascii_runtime)). reflexivity.
Defined.

Section ClaimC10.
Context `{JsRuntime}.

(** C10.  Whatever the sources and the LLM answer, a session of
    [part_000] that is completed holds at most 50 jobs: its list is the
    first 50 of the final list.  A run without ranking ends completed
    with the first 50 of the deduplicated ML jobs. *)
Theorem C10_completed_session_holds_at_most_50_jobs :
  (forall new_id now body evs,
     let fin := Part000.run_events evs (Part000.start_session new_id now body) in
     Part000.status fin.2 = Part000.completed ->
     length (Part000.jobs fin.2) <= 50 /\
     exists finalJobs, Part000.jobs fin.2 = take 50 finalJobs) /\
  (forall new_id clock tok results,
     let fin :=
       Part000.run_events (part_crawl_schedule clock results)
         (Part000.start_session new_id (clock 0) (Part000.mkStartBody (Some false) tok)) in
     Part000.status fin.2 = Part000.completed /\
     Part000.jobs fin.2 = take 50 (part_pool results)) /\
  (forall new_id clock tok results reply,
     tok <> "" ->
     let fin :=
       Part000.run_events (part_advanced_schedule clock results reply)
         (Part000.start_session new_id (clock 0)
            (Part000.mkStartBody (Some true) (Some tok))) in
     Part000.status fin.2 = Part000.completed /\
     Part000.jobs fin.2
       = take 50 (Part000.a_jobs (Part000.research_settled (part_pool results) reply))).
Proof.
  split_and!.
  - intros new_id now body evs fin Hdone.
    pose proof (part_run_events_inv evs _ (part_start_inv new_id now body)) as Hinv.
    fold fin in Hinv.
    apply (part_inv_completed fin Hinv) in Hdone.
    unfold part_run_inv in Hinv. rewrite Hdone in Hinv.
    destruct Hinv as (_ & _ & (finalJobs & Hj) & _).
    split; [|by exists finalJobs].
    rewrite Hj, length_take. lia.
  - intros new_id clock tok results fin.
    destruct (part_standard_run new_id clock (Some false) tok results eq_refl)
      as (_ & ? & _ & ? & _).
    done.
  - intros new_id clock tok results reply Htok fin.
    destruct (part_advanced_run new_id clock tok results reply Htok) as (_ & ? & _ & ? & _).
    done.
Qed.

End ClaimC10.

(** C10: the statement is applied to a run whose first source returns
    sixty distinct ML jobs. *)
Lemma C10_witness :
  let fin :=
    Part000.run_events (H := ascii_runtime) (part_crawl_schedule demo_clock sixty_results)
      (Part000.start_session (H := ascii_runtime) "s-1" "t0"
         (Part000.mkStartBody None None)) in
  length (Part000.jobs fin.2) <= 50 /\
  exists finalJobs, Part000.jobs fin.2 = take 50 finalJobs.
Proof.
  apply (proj1 (@C10_completed_session_holds_at_most_50_jobs ascii_runtime)).
  vm_compute. reflexivity.
Defined.

(** Fifty of the sixty jobs are kept. *)
Example sixty_jobs_are_cut_to_50 :
  let fin :=
    Part000.run_events (H := ascii_runtime) (part_crawl_schedule demo_clock sixty_results)
      (Part000.start_session (H := ascii_runtime) "s-1" "t0"
         (Part000.mkStartBody None None)) in
  length (part_pool (H := ascii_runtime) sixty_results) = 60 /\
  length (Part000.jobs fin.2) = 50.
Proof. split; vm_compute; reflexivity. Qed.

Section ClaimC4.
Context `{JsRuntime}.

(** C4.  When the fetcher of source [i] throws, the run completes all
    the same, a log entry names the source (RemoteOK or WeWorkRemotely
    in [server.js], Remotive or Arbeitnow in [part_000]) and gives the
    reason, and the source adds no job: the run ends with the jobs it
    would have if the source had returned an empty list.  This holds in
    the standard
    and advanced runs of [server.js] (an advanced run needs a token to
    start, the one error outside the sources) and in every session of
    [part_000]. *)
Theorem C4_failed_source_is_isolated :
  (forall new_id clock m tok results i msg,
     m <> "advanced" -> i < 2 -> results i = Threw msg ->
     let run_with rs :=
       ServerJs.run_events (server_standard_schedule clock rs)
         (server_launch new_id (clock 0) m tok) in
     ServerJs.status (run_with results).2 = ServerJs.completed /\
     ServerJs.mkLog (clock (S i))
       (match i with 0 => "RemoteOK" | _ => "WeWorkRemotely" end +:+ " failed: " +:+ msg)
       ∈ ServerJs.logs (run_with results).2 /\
     ServerJs.jobs (run_with results).2
       = ServerJs.jobs (run_with (without_source i results)).2) /\
  (forall new_id clock tok results reply i msg,
     tok <> "" -> i < 2 -> results i = Threw msg ->
     let run_with rs :=
       ServerJs.run_events (server_advanced_schedule clock rs reply)
         (server_launch new_id (clock 0) "advanced" tok) in
     ServerJs.status (run_with results).2 = ServerJs.completed /\
     ServerJs.mkLog (clock (5 + i))
       (match i with 0 => "RemoteOK" | _ => "WeWorkRemotely" end +:+ " failed: " +:+ msg)
       ∈ ServerJs.logs (run_with results).2 /\
     ServerJs.jobs (run_with results).2
       = ServerJs.jobs (run_with (without_source i results)).2) /\
  (forall new_id clock req results reply i msg,
     i < 2 -> results i = Threw msg ->
     let run_with rs :=
       Part000.run_events (part_advanced_schedule clock rs reply)
         (Part000.start_session new_id (clock 0) req) in
     Part000.status (run_with results).2 = Part000.completed /\
     Part000.EvLog
       (match i with 0 => "Remotive" | _ => "Arbeitnow" end +:+ " crawl failed: " +:+ msg)
       ∈ Part000.body <$> Part000.events (run_with results).2 /\
     Part000.jobs (run_with results).2
       = Part000.jobs (run_with (without_source i results)).2).
Proof.
  split_and!.
  - intros new_id clock m tok results i msg Hm Hi Hthrew run_with.
    destruct (server_standard_run new_id clock m tok results Hm)
      as (_ & Hst & _ & _ & Hjobs & Hlogs).
    destruct (server_standard_run new_id clock m tok (without_source i results) Hm)
      as (_ & _ & _ & _ & Hjobs' & _).
    rewrite (server_pool_without_source i results msg Hthrew) in Hjobs'.
    fold (run_with results) in Hst, Hjobs, Hlogs.
    fold (run_with (without_source i results)) in Hjobs'.
    split_and!; [done| |congruence].
    rewrite Hlogs. clear -Hi Hthrew.
    destruct i as [|[|i]]; [| |lia]; rewrite Hthrew; cbn [server_source_line]; in_list.
  - intros new_id clock tok results reply i msg Htok Hi Hthrew run_with.
    destruct (server_advanced_summary new_id clock tok results reply Htok)
      as (_ & Hst & _ & Hjobs & Hl0 & Hl1).
    destruct (server_advanced_summary new_id clock tok (without_source i results) reply Htok)
      as (_ & _ & _ & Hjobs' & _).
    rewrite (server_pool_without_source i results msg Hthrew) in Hjobs'.
    fold (run_with results) in Hst, Hjobs, Hl0, Hl1.
    fold (run_with (without_source i results)) in Hjobs'.
    split_and!; [done| |congruence].
    destruct i as [|[|i]]; [| |lia]; rewrite Hthrew in *; cbn [server_source_line] in *;
      [exact Hl0|exact Hl1].
  - intros new_id clock req results reply i msg Hi Hthrew run_with.
    destruct (part_run_summary new_id clock req results reply)
      as (_ & Hst & _ & Hjobs & Hl0 & Hl1).
    destruct (part_run_summary new_id clock req (without_source i results) reply)
      as (_ & _ & _ & Hjobs' & _).
    rewrite (part_pool_without_source i results msg Hthrew) in Hjobs'.
    fold (run_with results) in Hst, Hjobs, Hl0, Hl1.
    fold (run_with (without_source i results)) in Hjobs'.
    split_and!; [done| |congruence].
    destruct i as [|[|i]]; [| |lia]; rewrite Hthrew in *; cbn [part_source_line] in *;
      [exact Hl0|exact Hl1].
Qed.

End ClaimC4.

(** C4: the statement is applied to a standard run whose second source
    answers 503. *)
Lemma C4_witness :
  let run_with rs :=
    ServerJs.run_events (H := ascii_runtime) (server_standard_schedule demo_clock rs)
      (server_launch (H := ascii_runtime) "run-1" (demo_clock 0) "standard" "") in
  ServerJs.status (run_with three_results).2 = ServerJs.completed /\
  ServerJs.mkLog (demo_clock 2) "WeWorkRemotely failed: WeWorkRemotely returned 503"
    ∈ ServerJs.logs (run_with three_results).2 /\
  ServerJs.jobs (run_with three_results).2
    = ServerJs.jobs (run_with (without_source 1 three_results)).2.
Proof.
  apply (proj1 (@C4_failed_source_is_isolated ascii_runtime)
           "run-1" demo_clock "standard" "" three_results 1 "WeWorkRemotely returned 503");
    [done|lia|reflexivity].
Defined.

Section ClaimC3.
Context `{JsRuntime}.

(** C3, as the code has it.  A failed ranking call never fails the run.
    In [part_000] the session completes with the first 30 deduplicated
    jobs, in their order, and a note "LLM ranking failed: ..." in the
    log event.  In [server.js] the run completes with the jobs of the
    crawl as they are (deduplicated and sorted by title, none dropped)
    and "LLM synthesis skipped: ..." as last log line. *)
Theorem C3_failed_ranking_keeps_the_crawl_result :
  (forall new_id clock tok results msg,
     tok <> "" ->
     let fin :=
       Part000.run_events
         (part_advanced_schedule clock results (Part000.LlmThrew msg))
         (Part000.start_session new_id (clock 0)
            (Part000.mkStartBody (Some true) (Some tok))) in
     Part000.status fin.2 = Part000.completed /\
     Part000.jobs fin.2 = take 30 (part_pool results) /\
     Part000.EvLog
       (String.concat " | " (Part000.graph_notes ++ ["LLM ranking failed: " +:+ msg]))
       ∈ Part000.body <$> Part000.events fin.2) /\
  (forall new_id clock tok results msg,
     tok <> "" -> server_pool results <> [] ->
     let fin :=
       ServerJs.run_events
         (server_advanced_schedule clock results (ServerJs.LlmThrew msg))
         (server_launch new_id (clock 0) "advanced" tok) in
     ServerJs.status fin.2 = ServerJs.completed /\
     ServerJs.jobs fin.2
       = js_sort ServerJs.by_title
           (ServerJs.dedupeJobs (got (results 0) ++ got (results 1))) /\
     length (ServerJs.jobs fin.2)
       = length (ServerJs.dedupeJobs (got (results 0) ++ got (results 1))) /\
     last (ServerJs.logs fin.2)
       = Some (ServerJs.mkLog (clock 7) ("LLM synthesis skipped: " +:+ msg))).
Proof.
  split.
  - intros new_id clock tok results msg Htok fin.
    destruct (part_advanced_run new_id clock tok results (Part000.LlmThrew msg) Htok)
      as (_ & Hst & _ & Hjobs & Hev).
    fold fin in Hst, Hjobs, Hev.
    split_and!; [done| |].
    + rewrite Hjobs. apply take_take_50_30.
    + rewrite Hev. clear. in_list.
  - intros new_id clock tok results msg Htok Hpool fin.
    destruct (server_advanced_run new_id clock tok results (ServerJs.LlmThrew msg) Htok Hpool)
      as (_ & Hst & _ & Hjobs & Hlogs).
    fold fin in Hst, Hjobs, Hlogs.
    split_and!; [done|done| |by rewrite Hlogs].
    rewrite Hjobs. apply js_sort_length.
Qed.

End ClaimC3.

(** C3: the statement is applied to a session of [part_000] whose
    ranking call is refused. *)
Lemma C3_witness :
  let fin :=
    Part000.run_events (H := ascii_runtime)
      (part_advanced_schedule demo_clock sixty_results
         (Part000.LlmThrew "LLM API call failed with 401"))
      (Part000.start_session (H := ascii_runtime) "s-1" (demo_clock 0)
         (Part000.mkStartBody (Some true) (Some "sk-1"))) in
  Part000.status fin.2 = Part000.completed /\
  Part000.jobs fin.2 = take 30 (part_pool (H := ascii_runtime) sixty_results) /\
  Part000.EvLog
    (String.concat " | "
       (Part000.graph_notes ++ ["LLM ranking failed: " +:+ "LLM API call failed with 401"]))
    ∈ Part000.body <$> Part000.events fin.2.
Proof.
  apply (proj1 (@C3_failed_ranking_keeps_the_crawl_result ascii_runtime)). done.
Defined.

(** C3 fails as stated for [server.js]: after a refused ranking call
    the run holds the jobs sorted by title, "a" before "b", which is no
    prefix of the deduplicated list ("b" before "a"). *)
Lemma C3_failed_ranking_leaves_title_order :
  let fin := demo_advanced_run (ServerJs.LlmThrew "LLM API error 401") in
  let deduped :=
    ServerJs.dedupeJobs (H := ascii_runtime) (got (two_results 0) ++ got (two_results 1)) in
  ServerJs.status fin.2 = ServerJs.completed /\
  deduped = [ sjob "b" "u2"; sjob "a" "u1" ] /\
  ServerJs.jobs fin.2 = [ sjob "a" "u1"; sjob "b" "u2" ] /\
  forall n, ServerJs.jobs fin.2 <> take n deduped.
Proof.
  assert (ServerJs.jobs (demo_advanced_run (ServerJs.LlmThrew "LLM API error 401")).2
          = [ sjob "a" "u1"; sjob "b" "u2" ]) as Hjobs by (vm_compute; reflexivity).
  assert (ServerJs.dedupeJobs (H := ascii_runtime)
            (got (two_results 0) ++ got (two_results 1))
          = [ sjob "b" "u2"; sjob "a" "u1" ]) as Hded by (vm_compute; reflexivity).
  cbv zeta. rewrite Hjobs, Hded. split_and!; [vm_compute; reflexivity|done|done|].
  intros [|[|[|n]]]; vm_compute; intros [=].
Qed.

Section ClaimC6.
Context `{JsRuntime}.

(** C6, as the code has it.  In [part_000] a parsed ranking puts the
    jobs the identifier list refers to first, in its order, then the
    other jobs in their own order, cut to 30.  [server.js] does not
    follow the order of the answer: each job takes the fitScore and
    rationale of the insight with its url, and the jobs are sorted by
    descending fitScore (0 when missing), jobs of equal score keeping
    their order; no job is dropped. *)
Theorem C6_ranking_merge :
  (forall new_id clock tok results ids summary,
     tok <> "" ->
     let fin :=
       Part000.run_events
         (part_advanced_schedule clock results (Part000.LlmParsed ids summary))
         (Part000.start_session new_id (clock 0)
            (Part000.mkStartBody (Some true) (Some tok))) in
     Part000.status fin.2 = Part000.completed /\
     Part000.jobs fin.2 = take 30 (referenced_first ids (part_pool results))) /\
  (forall new_id clock tok results insights,
     tok <> "" ->
     let fin :=
       ServerJs.run_events
         (server_advanced_schedule clock results (ServerJs.LlmInsights insights))
         (server_launch new_id (clock 0) "advanced" tok) in
     let scored :=
       map (ServerJs.annotate (ServerJs.insightMap insights)) (server_pool results) in
     ServerJs.status fin.2 = ServerJs.completed /\
     Permutation (ServerJs.jobs fin.2) scored /\
     StronglySorted
       (fun a b => (ServerJs.fit_or_zero b <= ServerJs.fit_or_zero a)%Z)
       (ServerJs.jobs fin.2) /\
     (forall v,
        List.filter (fun a => (ServerJs.fit_or_zero a =? v)%Z) (ServerJs.jobs fin.2)
        = List.filter (fun a => (ServerJs.fit_or_zero a =? v)%Z) scored) /\
     length (ServerJs.jobs fin.2) = length (server_pool results)).
Proof.
  split.
  - intros new_id clock tok results ids summary Htok fin.
    destruct (part_advanced_run new_id clock tok results (Part000.LlmParsed ids summary) Htok)
      as (_ & Hst & _ & Hjobs & _).
    fold fin in Hst, Hjobs. split; [done|].
    rewrite Hjobs, research_parsed_jobs. apply take_take_50_30.
  - intros new_id clock tok results insights Htok fin scored.
    destruct (server_advanced_summary new_id clock tok results
                (ServerJs.LlmInsights insights) Htok) as (_ & Hst & _ & Hjobs & _).
    fold fin in Hst, Hjobs. cbn [server_llm_jobs] in Hjobs. fold scored in Hjobs.
    rewrite Hjobs. split_and!; [done| | | |].
    + apply js_sort_perm.
    + apply (js_sort_desc ServerJs.fit_or_zero).
    + intros v. apply (js_sort_stable ServerJs.fit_or_zero).
    + rewrite js_sort_length. subst scored. by rewrite length_map.
Qed.

End ClaimC6.

(** C6: the statement is applied to a session of [part_000] whose
    ranking names job 7, an unknown job and job 3. *)
Lemma C6_witness :
  let fin :=
    Part000.run_events (H := ascii_runtime)
      (part_advanced_schedule demo_clock sixty_results
         (Part000.LlmParsed ["7"; "none"; "3"] "ok"))
      (Part000.start_session (H := ascii_runtime) "s-1" (demo_clock 0)
         (Part000.mkStartBody (Some true) (Some "sk-1"))) in
  Part000.status fin.2 = Part000.completed /\
  Part000.jobs fin.2
    = take 30 (referenced_first ["7"; "none"; "3"] (part_pool (H := ascii_runtime) sixty_results)).
Proof.
  apply (proj1 (@C6_ranking_merge ascii_runtime)). done.
Defined.

(** C6 fails as stated for [server.js]: the answer lists the job at u2
    before the job at u1, the run ends with the job at u1 first. *)
Lemma C6_scores_override_answer_order :
  let fin := demo_advanced_run (ServerJs.LlmInsights two_insights) in
  ServerJs.status fin.2 = ServerJs.completed /\
  map ServerJs.i_url two_insights = [ "u2"; "u1" ] /\
  map ServerJs.url (ServerJs.jobs fin.2) = [ "u1"; "u2" ] /\
  map ServerJs.fit_or_zero (ServerJs.jobs fin.2) = [ 90; 10 ]%Z.
Proof. split_and!; vm_compute; reflexivity. Qed.

Section ClaimC7.
Context `{JsRuntime}.

(** C7, as the code has it.  Both stream routes answer 404 for an
    unknown identifier and open nothing.  In [part_000] the server ends
    a stream only when the run is completed and every event, the final
    "done" event last, was written to it; it does so at the first poll
    that finds the run completed, and the poll timer stays set until
    then unless the client goes away.  [server.js] never ends a stream:
    it keeps writing snapshots, the one of the completed run included,
    until the client closes. *)
Theorem C7_stream_end :
  (forall sid (reg : gmap string Part000.Session),
     reg !! sid = None ->
     Part000.get_stream sid reg = (ReplyError 404 "Crawl session not found", None)) /\
  (forall new_id now req before after,
     let st := Part000.run_events before (Part000.start_session new_id now req) in
     let opened := Part000.pushPendingEvents st.2 (Part000.mkStream 0 [] false true) in
     let fin := Part000.observe_all after (st, opened) in
     (Part000.ended fin.2 = true ->
        Part000.status fin.1.2 = Part000.completed /\
        Part000.sent fin.2 = Part000.events fin.1.2 /\
        exists at_,
          last (Part000.sent fin.2)
          = Some (Part000.mkEvent at_
                    (Part000.EvDone 100 "Completed" (length (Part000.jobs fin.1.2))))) /\
     (Part000.status fin.1.2 = Part000.completed -> Part000.timer fin.2 = true ->
        let next := Part000.observe Part000.Tick fin in
        Part000.ended next.2 = true /\ Part000.sent next.2 = Part000.events fin.1.2) /\
     (Part000.Closed ∉ after -> Part000.ended fin.2 = false ->
        Part000.timer fin.2 = true)) /\
  (forall runId now c (reg : gmap string ServerJs.Run),
     reg !! runId = None ->
     ServerJs.get_events runId now c reg = (ReplyError 404 "Run not found", reg)) /\
  (forall new_id now m tok evs,
     let fin := ServerJs.run_events evs (server_launch new_id now m tok) in
     Forall
       (fun k =>
          ServerJs.ended k = false /\
          exists at_, last (ServerJs.written k) = Some (ServerJs.snapshot at_ fin.2))
       (ServerJs.clients fin.2)).
Proof.
  split_and!.
  - intros sid reg Hnone. unfold Part000.get_stream. by rewrite Hnone.
  - intros new_id now req before after st opened fin.
    assert (part_run_inv st) as Hrun by apply part_run_events_inv, part_start_inv.
    clearbody st. destruct st as [t s]. cbn [snd] in opened.
    assert (part_stream_inv fin) as (Hinv & Hsent & Hidx & Hend)
      by apply part_observe_all_inv, part_open_stream_inv, Hrun.
    split_and!.
    + intros Hended. destruct (Hend Hended) as (Hpc & Hi & _).
      pose proof Hinv as Hinv'. unfold part_run_inv in Hinv'. rewrite Hpc in Hinv'.
      destruct Hinv' as (Hst & _ & _ & at_ & Hlast).
      rewrite Hsent, Hi, firstn_all. split_and!; [done|done|by exists at_].
    + intros Hdone Htimer next. subst next.
      destruct fin as [[t' s'] o]. cbn [fst snd] in *. cbn [Part000.observe].
      rewrite Htimer. cbn [snd].
      destruct (pushPendingEvents_sent s' o Hsent Hidx) as [Hs _].
      split; [|done]. rewrite pushPendingEvents_ended, Hdone. done.
    + intros Hnc Hopen. apply part_observe_all_timer; [done| |done].
      subst opened. cbn [snd]. unfold Part000.pushPendingEvents.
      destruct (Part000.terminal _) eqn:Hterm; [|done].
      exfalso. revert Hopen. subst fin.
      rewrite part_observe_all_stays_ended; [done|].
      cbn [snd]. unfold Part000.pushPendingEvents. by rewrite Hterm.
  - intros runId now c reg Hnone. unfold ServerJs.get_events. by rewrite Hnone.
  - intros new_id now m tok evs fin.
    pose proof (run_events_open evs _ (server_launch_open new_id now m tok)) as Hopen.
    pose proof (run_events_current evs _ (server_launch_current new_id now m tok)) as Hcur.
    fold fin in Hopen, Hcur. unfold server_streams_open in Hopen.
    unfold server_clients_current in Hcur.
    rewrite Forall_forall in *. intros k Hk. split; [by apply Hopen|by apply Hcur].
Qed.

End ClaimC7.

(** C7: the statement is applied to a stream opened on a session whose
    first source has settled; the second source and two polls follow. *)
Lemma C7_witness :
  let st := half_crawled_session in
  let opened := Part000.pushPendingEvents st.2 (Part000.mkStream 0 [] false true) in
  let fin :=
    Part000.observe_all (H := ascii_runtime)
      [ Part000.RunTurn "t2" (Part000.SourceSettled (sixty_results 1)); Part000.Tick ]
      (st, opened) in
  Part000.status fin.1.2 = Part000.completed /\
  Part000.sent fin.2 = Part000.events fin.1.2 /\
  exists at_,
    last (Part000.sent fin.2)
    = Some (Part000.mkEvent at_
              (Part000.EvDone 100 "Completed" (length (Part000.jobs fin.1.2)))).
Proof.
  apply (proj1 (proj1 (proj2 (@C7_stream_end ascii_runtime))
                  "s-1" "t0" (Part000.mkStartBody None None)
                  [ (demo_clock 1, Part000.SourceSettled (sixty_results 0)) ]
                  [ Part000.RunTurn "t2" (Part000.SourceSettled (sixty_results 1));
                    Part000.Tick ])).
  vm_compute. reflexivity.
Defined.

(** C7 fails as stated for [server.js]: the run is completed, client 7
    was written the snapshot of the completed run, and its stream is
    still held by the run and was not ended. *)
Lemma C7_completed_run_keeps_stream_open :
  ServerJs.status watched_standard_run.2 = ServerJs.completed /\
  map (fun k => (ServerJs.cid k, ServerJs.ended k,
                 ServerJs.p_status <$> last (ServerJs.written k)))
      (ServerJs.clients watched_standard_run.2)
  = [ (7, false, Some ServerJs.completed) ].
Proof. split; vm_compute; reflexivity. Qed.

Section ClaimC9.
Context `{JsRuntime}.

(** C9, as the code has it.  In [server.js] the first message written
    to a response that attaches is the full snapshot of the run as it
    is then (its progress, status, stage, logs and jobs).  In
    [part_000] a new stream is written every buffered event from the
    oldest on: its first message is the start event with progress 5,
    whatever the run has reached. *)
Theorem C9_first_message_on_attach :
  (forall runId now c (reg : gmap string ServerJs.Run) r,
     reg !! runId = Some r -> c ∉ ServerJs.cid <$> ServerJs.clients r ->
     ServerJs.get_events runId now c reg
       = (ReplyEventStream, <[runId := ServerJs.attach now c r]> reg) /\
     ServerJs.mkClient c [ServerJs.snapshot now r] false
       ∈ ServerJs.clients (ServerJs.attach now c r) /\
     ServerJs.p_progress (ServerJs.snapshot now r) = ServerJs.progress r /\
     ServerJs.p_status (ServerJs.snapshot now r) = ServerJs.status r /\
     ServerJs.p_stage (ServerJs.snapshot now r) = ServerJs.stage r /\
     ServerJs.p_logs (ServerJs.snapshot now r) = ServerJs.logs r /\
     ServerJs.p_jobs (ServerJs.snapshot now r) = ServerJs.jobs r) /\
  (forall new_id now req evs sid (reg : gmap string Part000.Session),
     let s := (Part000.run_events evs (Part000.start_session new_id now req)).2 in
     reg !! sid = Some s ->
     exists o,
       Part000.get_stream sid reg = (ReplyEventStream, Some o) /\
       Part000.sent o = Part000.events s /\
       head (Part000.sent o)
       = Some (Part000.mkEvent now
                 (Part000.EvProgress 5
                    (if default false (Part000.b_advancedMode req)
                     then "Starting advanced crawl" else "Starting crawl")))).
Proof.
  split.
  - intros runId now c reg r Hr Hfresh. split_and!; try reflexivity.
    + unfold ServerJs.get_events. by rewrite Hr.
    + rewrite attach_first_message by done. apply elem_of_app. right. in_list.
  - intros new_id now req evs sid reg s Hs.
    exists (Part000.pushPendingEvents s (Part000.mkStream 0 [] false true)).
    assert (Part000.sent (Part000.pushPendingEvents s (Part000.mkStream 0 [] false true))
            = Part000.events s) as Hsent.
    { apply pushPendingEvents_sent; [done|cbn; lia]. }
    split_and!.
    + unfold Part000.get_stream. by rewrite Hs.
    + done.
    + rewrite Hsent. apply part_first_event.
Qed.

End ClaimC9.

(** C9: the statement is applied to a response attaching to a run of
    [server.js] that has a log line and progress 40. *)
Lemma C9_witness :
  let r := ServerJs.set_progress 40 crowded_run in
  ServerJs.get_events "run-1" "t9" 7 (<["run-1" := r]> ∅)
    = (ReplyEventStream, <["run-1" := ServerJs.attach "t9" 7 r]> (<["run-1" := r]> ∅)) /\
  ServerJs.mkClient 7 [ServerJs.snapshot "t9" r] false
    ∈ ServerJs.clients (ServerJs.attach "t9" 7 r) /\
  ServerJs.p_progress (ServerJs.snapshot "t9" r) = ServerJs.progress r /\
  ServerJs.p_status (ServerJs.snapshot "t9" r) = ServerJs.status r /\
  ServerJs.p_stage (ServerJs.snapshot "t9" r) = ServerJs.stage r /\
  ServerJs.p_logs (ServerJs.snapshot "t9" r) = ServerJs.logs r /\
  ServerJs.p_jobs (ServerJs.snapshot "t9" r) = ServerJs.jobs r.
Proof.
  apply (proj1 (@C9_first_message_on_attach ascii_runtime)).
  - apply lookup_insert_eq.
  - apply not_elem_of_nil.
Defined.

(** C9 fails as stated for [part_000]: a stream opened on a session at
    progress 40 is first written the start event with progress 5. *)
Lemma C9_stream_replays_from_the_start :
  let s := half_crawled_session.2 in
  let out := Part000.get_stream "s-1" (<["s-1" := s]> ∅) in
  Part000.progress s = 40%Z /\
  out.1 = ReplyEventStream /\
  (fun o => head (Part000.sent o)) <$> out.2
  = Some (Some (Part000.mkEvent "t0" (Part000.EvProgress 5 "Starting crawl"))).
Proof. split_and!; vm_compute; reflexivity. Qed.

(** * Further properties of the code *)

(** ** Substring search and the keyword filters *)
Lemma prefix_app (needle haystack : string) :
  String.prefix needle haystack = true <-> exists post, haystack = needle +:+ post.
Proof.
  revert haystack; induction needle as [|c needle IH]; intros haystack.
  - split; [intros _; by exists haystack|intros _; by destruct haystack].
  - destruct haystack as [|d haystack]; cbn [String.prefix].
    + split; [done|intros [post Hpost]; done].
    + destruct (Ascii.ascii_dec c d) as [->|Hne].
      * rewrite IH. split; intros [post Hpost]; exists post;
          [by rewrite Hpost|by injection Hpost].
      * split; [done|]. intros [post Hpost]. injection Hpost as Hc _. congruence.
Qed.

Lemma includes_app (haystack needle : string) :
  includes haystack needle = true
  <-> exists pre post, haystack = pre +:+ needle +:+ post.
Proof.
  induction haystack as [|c haystack IH]; cbn [includes].
  - rewrite prefix_app. split.
    + intros [post Hpost]. by exists "", post.
    + intros (pre & post & Heq). destruct pre; [by exists post|done].
  - rewrite orb_true_iff, prefix_app, IH. split.
    + intros [[post Hpost]|(pre & post & Heq)].
      * by exists "", post.
      * exists (String c pre), post. cbn. by rewrite Heq.
    + intros (pre & post & Heq). destruct pre as [|d pre].
      * left. by exists post.
      * right. exists pre, post. by injection Heq.
Qed.

Section KeywordFacts.
Context `{JsRuntime}.

(** X1.  A posting passes the filter exactly when its lower-cased text has a
    keyword somewhere inside it, whatever stands before and after: the
    match is by substring, not by word.  [server.js] searches the text
    it is given, [part_000] the title, description and location joined
    by spaces; company, url and id play no part. *)
Theorem keyword_filters_match_substrings :
  (forall text,
     ServerJs.containsMLKeyword text = true
     <-> exists keyword pre post,
           keyword ∈ ServerJs.ML_KEYWORDS /\
           toLowerCase text = pre +:+ keyword +:+ post) /\
  (forall job,
     Part000.isMLJob job = true
     <-> exists keyword pre post,
           keyword ∈ Part000.SEARCH_KEYWORDS /\
           toLowerCase (Part000.title job +:+ " " +:+ Part000.description job
                        +:+ " " +:+ Part000.location job)
           = pre +:+ keyword +:+ post).
Proof.
  split.
  - intros text. unfold ServerJs.containsMLKeyword. rewrite existsb_exists. split.
    + intros (keyword & Hin & (pre & post & Heq)%includes_app).
      exists keyword, pre, post. split; [by apply list_elem_of_In|done].
    + intros (keyword & pre & post & Hin & Heq).
      exists keyword. split; [by apply list_elem_of_In|].
      apply includes_app. by exists pre, post.
  - intros job. unfold Part000.isMLJob. rewrite existsb_exists. split.
    + intros (keyword & Hin & (pre & post & Heq)%includes_app).
      exists keyword, pre, post. split; [by apply list_elem_of_In|done].
    + intros (keyword & pre & post & Hin & Heq).
      exists keyword. split; [by apply list_elem_of_In|].
      apply includes_app. by exists pre, post.
Qed.

End KeywordFacts.

(** ** The LLM steps *)
Section InsightFacts.
Import ServerJs.

Lemma insightMap_fold insights (m : gmap string Insight) u :
  fold_left (fun acc x => <[i_url x := x]> acc) insights m !! u
  = match last (filter (fun x => i_url x = u) insights) with
    | Some x => Some x
    | None => m !! u
    end.
Proof.
  revert m; induction insights as [|x insights IH]; intros m; [done|].
  cbn [fold_left]. rewrite IH. rewrite filter_cons. case_decide as Hx.
  - rewrite last_cons. destruct (last _); [done|]. subst u. apply lookup_insert_eq.
  - destruct (last _); [done|]. by apply lookup_insert_ne.
Qed.

(** X2.  When the answer of the LLM carries several insights for one url,
    the last one decides: a job takes the fitScore (null when it is 0
    or no number) and the rationale of the last insight with its url,
    keeps its other fields, and is left as it is when no insight has
    its url. *)
Theorem llm_last_insight_wins insights job :
  annotate (insightMap insights) job
  = match last (filter (fun x => i_url x = url job) insights) with
    | None => job
    | Some extra =>
        mkJob (title job) (company job) (location job) (source job) (url job)
          (postedAt job) (summary job)
          (Some (score_or_null (i_fitScore extra))) (Some (i_rationale extra))
    end.
Proof.
  unfold annotate, insightMap. rewrite insightMap_fold, lookup_empty.
  by destruct (last _).
Qed.

End InsightFacts.

Section RankingFacts.
Import Part000.

Lemma referenced_first_in pool ids job : job ∈ referenced_first ids pool -> job ∈ pool.
Proof.
  unfold referenced_first. intros [Hin|Hin]%elem_of_app.
  - apply list_elem_of_omap in Hin as (wanted & _ & Hfind).
    unfold find_by_id in Hfind. apply find_some in Hfind as [Hin _].
    by apply list_elem_of_In.
  - apply list_elem_of_In, filter_In in Hin as [Hin _]. by apply list_elem_of_In.
Qed.

(** X3.  Whatever the LLM answers, [runAdvancedDeepResearch] returns at most
    30 jobs, each of them one of the jobs it was given, and its notes
    start with the four graph notes; without a token or after a failed
    call the jobs are the first 30 as given. *)
Theorem research_returns_given_jobs pool reply :
  let out := research_settled pool reply in
  length (a_jobs out) <= 30 /\
  (forall job, job ∈ a_jobs out -> job ∈ pool) /\
  take 4 (a_notes out) = graph_notes /\
  length (a_notes out) = 5 /\
  (forall msg, reply = LlmThrew msg -> a_jobs out = take 30 pool) /\
  a_jobs (research_without_token pool) = take 30 pool.
Proof.
  intros out; subst out. split_and!.
  - destruct reply; cbn [research_settled a_jobs]; rewrite length_take; lia.
  - intros job. destruct reply as [msg|ids summary]; cbn [research_settled a_jobs].
    + intros Hin. by eapply subseteq_take.
    + intros Hin%subseteq_take. rewrite remainder_of_unreferenced in Hin.
      by eapply referenced_first_in.
  - by destruct reply.
  - by destruct reply.
  - by intros msg ->.
  - done.
Qed.

Lemma filter_split {A} (f : A -> bool) (l : list A) :
  Permutation (List.filter f l ++ List.filter (fun x => negb (f x)) l) l.
Proof.
  induction l as [|x l IH]; [done|]. cbn [List.filter].
  destruct (f x); cbn [negb app].
  - by constructor.
  - rewrite <- Permutation_middle. by constructor.
Qed.

Lemma nodup_fmap_inj {A B} (f : A -> B) (l : list A) x y :
  NoDup (f <$> l) -> x ∈ l -> y ∈ l -> f x = f y -> x = y.
Proof.
  intros Hnd (i & Hi)%list_elem_of_lookup_1 (j & Hj)%list_elem_of_lookup_1 Heq.
  assert (i = j) as ->; [|congruence].
  eapply (NoDup_lookup _ i j (f x) Hnd); rewrite list_lookup_fmap.
  - by rewrite Hi.
  - by rewrite Hj, Heq.
Qed.

Lemma ranked_of_NoDup pool ids : NoDup ids -> NoDup (ranked_of pool ids).
Proof.
  induction 1 as [|wanted ids Hnotin Hnd IH]; [constructor|].
  unfold ranked_of in *. cbn [omap list_omap].
  destruct (find_by_id pool wanted) as [job|] eqn:Hfind; [|done].
  constructor; [|done].
  intros Hin%ranked_of_ids.
  unfold find_by_id in Hfind. apply find_some in Hfind as [_ Heq].
  apply bool_decide_eq_true_1 in Heq. congruence.
Qed.

(** X4.  When the answer lists no identifier twice and the jobs have
    distinct ids, the merge neither loses nor repeats a job: it is a
    rearrangement of the jobs given, and so is the result when there
    are at most 30 of them. *)
Theorem ranking_merge_rearranges pool ids summary :
  NoDup ids -> NoDup (id <$> pool) ->
  Permutation (referenced_first ids pool) pool /\
  (length pool <= 30 ->
   Permutation (a_jobs (research_settled pool (LlmParsed ids summary))) pool).
Proof.
  intros Hids Hpool.
  assert (Permutation (referenced_first ids pool) pool) as Hperm.
  { unfold referenced_first.
    rewrite <- (filter_split (fun job => bool_decide (id job ∈ ids)) pool) at 3.
    apply Permutation_app_tail.
    apply NoDup_Permutation.
    - fold (ranked_of pool ids). by apply ranked_of_NoDup.
    - apply NoDup_ListNoDup, List.NoDup_filter, NoDup_ListNoDup.
      by eapply NoDup_fmap_1.
    - intros job. fold (ranked_of pool ids). split.
      + intros Hin. apply list_elem_of_In, filter_In. split.
        * apply list_elem_of_In. unfold ranked_of in Hin.
          apply list_elem_of_omap in Hin as (wanted & _ & Hfind).
          unfold find_by_id in Hfind. apply find_some in Hfind as [Hin _].
          by apply list_elem_of_In.
        * apply bool_decide_eq_true_2. by eapply ranked_of_ids.
      + intros [Hin Hid%bool_decide_eq_true_1]%list_elem_of_In%filter_In.
        apply list_elem_of_In in Hin.
        destruct (ranked_of_covers pool ids job Hin Hid) as (r & Hr & Heq).
        assert (r = job) as <-; [|done].
        apply (nodup_fmap_inj id pool); [done| |done|done].
        unfold ranked_of in Hr. apply list_elem_of_omap in Hr as (wanted & _ & Hfind).
        unfold find_by_id in Hfind. apply find_some in Hfind as [Hr' _].
        by apply list_elem_of_In. }
  split; [done|]. intros Hlen.
  rewrite research_parsed_jobs, take_ge; [done|].
  rewrite (Permutation_length Hperm). lia.
Qed.

End RankingFacts.

(** The rearrangement, for five jobs and an answer naming two of them. *)
Lemma ranking_merge_rearranges_witness :
  Permutation (referenced_first five_ranking five_jobs) five_jobs /\
  (length five_jobs <= 30 ->
   Permutation
     (Part000.a_jobs (Part000.research_settled five_jobs (Part000.LlmParsed five_ranking "ok")))
     five_jobs).
Proof.
  apply ranking_merge_rearranges.
  - apply (bool_decide_unpack (NoDup five_ranking)). vm_compute. reflexivity.
  - apply (bool_decide_unpack (NoDup (Part000.id <$> five_jobs))). vm_compute. reflexivity.
Defined.

(** ** Normalisation of source records *)
Lemma string_app_assoc (a b c : string) : (a +:+ b) +:+ c = a +:+ (b +:+ c).
Proof.
  induction a as [|x a IH]; [done|].
  change (String x ((a +:+ b) +:+ c) = String x (a +:+ (b +:+ c))). by rewrite IH.
Qed.

Section NormalizeFacts.
Import Part000.

Lemma or_default_filled a d : d <> "" -> or_default a d <> "".
Proof. intros Hd. by destruct a as [[|c s]|]. Qed.

Lemma or_default_blank a d : blank a -> or_default a d = d.
Proof. by intros [->| ->]. Qed.

Lemma or_else_blank a b : blank a -> or_else a b = b.
Proof. by intros [->| ->]. Qed.

Lemma or_else_same a d : or_default (or_else a a) d = or_default a d.
Proof. by destruct a as [[|c s]|]. Qed.

Lemma normalizeJob_fields rand raw src :
  let job := normalizeJob rand raw src in
  source job = src /\
  String.prefix (src +:+ "-") (id job) = true /\
  title job <> "" /\ company job <> "" /\ location job <> "" /\
  publishedAt job <> Some "" /\
  (blank (r_title raw) -> title job = "Unknown role") /\
  (blank (r_company_name raw) -> blank (r_company raw) -> blank (r_companyName raw) ->
     company job = "Unknown company") /\
  (blank (r_candidate_required_location raw) -> blank (r_location raw) ->
     location job = "Remote / Unknown") /\
  (blank (r_url raw) -> blank (r_jobUrl raw) -> blank (r_landing_page raw) ->
     blank (r_refs_landing_page raw) -> url job = "") /\
  (blank (r_publication_date raw) -> blank (r_created_at raw) ->
     blank (r_publicationDate raw) -> publishedAt job = None).
Proof.
  intros job; subst job. unfold normalizeJob. cbn [source id title company location
    publishedAt url].
  split_and!; try (by apply or_default_filled).
  - done.
  - apply prefix_app. eexists. by rewrite string_app_assoc.
  - unfold or_else. repeat case_match; congruence.
  - intros. by rewrite or_default_blank.
  - intros. by rewrite !or_else_blank, or_default_blank.
  - intros. by rewrite !or_else_blank, or_default_blank.
  - intros H1 H2 H3 H4. rewrite !or_else_blank by done. by destruct H4 as [->| ->].
  - intros H1 H2 H3. by rewrite !or_else_blank.
Qed.

Lemma or_default_first_filled a d : or_default a d = default d (first_filled [a]).
Proof. by destruct a as [[|c s]|]. Qed.

Lemma or_else_first_filled a rest :
  or_else a (first_filled rest) = first_filled (a :: rest).
Proof. by destruct a as [[|c s]|]. Qed.

Lemma or_default_or_else a b d :
  or_default (or_else a b) d = default d (first_filled [a; b]).
Proof. by destruct a as [[|c s]|], b as [[|c' s']|]. Qed.

(** X5.  [normalizeJob] never fails and never leaves title, company or
    location empty: each field takes the first of its aliases, in the
    order the code lists them, that is a non-empty string, and its
    default when every alias is absent or empty; the date is null,
    never an empty string; the id is the name of the source, a dash,
    and the record's id when it is a non-empty string or a number
    other than 0 and NaN, else the first filled of url and link, else
    the random string. *)
Theorem normalizeJob_never_blank rand raw src :
  let job := normalizeJob rand raw src in
  source job = src /\
  String.prefix (src +:+ "-") (id job) = true /\
  title job <> "" /\ company job <> "" /\ location job <> "" /\
  publishedAt job <> Some "" /\
  (blank (r_title raw) -> title job = "Unknown role") /\
  (blank (r_company_name raw) -> blank (r_company raw) -> blank (r_companyName raw) ->
     company job = "Unknown company") /\
  (blank (r_candidate_required_location raw) -> blank (r_location raw) ->
     location job = "Remote / Unknown") /\
  (blank (r_url raw) -> blank (r_jobUrl raw) -> blank (r_landing_page raw) ->
     blank (r_refs_landing_page raw) -> url job = "") /\
  (blank (r_publication_date raw) -> blank (r_created_at raw) ->
     blank (r_publicationDate raw) -> publishedAt job = None) /\
  title job = default "Unknown role" (first_filled [r_title raw]) /\
  company job
    = default "Unknown company"
        (first_filled [r_company_name raw; r_company raw; r_companyName raw]) /\
  location job
    = default "Remote / Unknown"
        (first_filled [r_candidate_required_location raw; r_location raw]) /\
  url job
    = default ""
        (first_filled
           [r_url raw; r_jobUrl raw; r_landing_page raw; r_refs_landing_page raw]) /\
  publishedAt job
    = first_filled [r_publication_date raw; r_created_at raw; r_publicationDate raw] /\
  description job
    = default ""
        (first_filled [r_description raw; r_short_description raw; r_snippet raw]) /\
  (forall s, r_company_name raw = Some s -> s <> "" -> company job = s) /\
  (forall s, blank (r_company_name raw) -> r_company raw = Some s -> s <> "" ->
     company job = s) /\
  (forall s, blank (r_company_name raw) -> blank (r_company raw) ->
     r_companyName raw = Some s -> s <> "" -> company job = s) /\
  (forall s, r_id raw = IdString s -> s <> "" -> id job = src +:+ "-" +:+ s) /\
  (forall shown, r_id raw = IdNumber shown -> shown <> "0" -> shown <> "NaN" ->
     id job = src +:+ "-" +:+ shown) /\
  (r_id raw = IdAbsent \/ r_id raw = IdString "" \/
   r_id raw = IdNumber "0" \/ r_id raw = IdNumber "NaN" ->
     id job = src +:+ "-" +:+ default rand (first_filled [r_url raw; r_link raw])).
Proof.
  intros job.
  destruct (normalizeJob_fields rand raw src)
    as (H1 & H2 & H3 & H4 & H5 & H6 & H7 & H8 & H9 & H10 & H11).
  fold job in H1, H2, H3, H4, H5, H6, H7, H8, H9, H10, H11.
  split_and!; try assumption; subst job; unfold normalizeJob;
    cbn [title company location url publishedAt description id].
  - apply or_default_first_filled.
  - destruct (r_company_name raw) as [[|c s]|], (r_company raw) as [[|c' s']|],
      (r_companyName raw) as [[|c'' s'']|]; reflexivity.
  - apply or_default_or_else.
  - destruct (r_url raw) as [[|c s]|], (r_jobUrl raw) as [[|c' s']|],
      (r_landing_page raw) as [[|c'' s'']|], (r_refs_landing_page raw) as [[|c3 s3]|];
      reflexivity.
  - destruct (r_publication_date raw) as [[|c s]|], (r_created_at raw) as [[|c' s']|],
      (r_publicationDate raw) as [[|c'' s'']|]; reflexivity.
  - destruct (r_description raw) as [[|c s]|], (r_short_description raw) as [[|c' s']|],
      (r_snippet raw) as [[|c'' s'']|]; reflexivity.
  - intros s -> Hs. by destruct s.
  - intros s Hb -> Hs. rewrite (or_else_blank _ _ Hb). by destruct s.
  - intros s Hb Hb' -> Hs. rewrite (or_else_blank _ _ Hb), (or_else_blank _ _ Hb').
    by destruct s.
  - intros s Hid Hs. unfold id_part. rewrite Hid. by destruct s.
  - intros shown Hid H0 Hnan. unfold id_part. rewrite Hid.
    rewrite bool_decide_eq_false_2; [done|]. by intros [?|?].
  - intros Hid. unfold id_part. rewrite or_default_or_else.
    destruct Hid as [->|[->|[->| ->]]]; reflexivity.
Qed.

(** X6.  Both fetchers of [part_000] return one job per record of the
    response, in order, tagged with their source and without an empty
    title, company or location.  For Arbeitnow the location is read
    from [location] and the date from [created_at] alone: a
    [candidate_required_location] or [publication_date] in the record
    is overwritten before normalising. *)
Theorem fetchers_keep_every_record rand records :
  length (remotive_jobs rand records) = length records /\
  length (arbeitnow_jobs rand records) = length records /\
  (forall i raw,
     records !! i = Some raw ->
     remotive_jobs rand records !! i = Some (normalizeJob (rand i) raw "Remotive") /\
     exists job,
       arbeitnow_jobs rand records !! i = Some job /\
       source job = "Arbeitnow" /\
       title job <> "" /\ company job <> "" /\ location job <> "" /\
       location job = or_default (r_location raw) "Remote / Unknown" /\
       publishedAt job = or_else (r_created_at raw) (or_else (r_publicationDate raw) None)).
Proof.
  unfold remotive_jobs, arbeitnow_jobs. rewrite !length_imap. split_and!; [done|done|].
  intros i raw Hi. rewrite !list_lookup_imap, Hi. cbn [fmap option_fmap option_map].
  split; [done|]. eexists. split; [done|].
  destruct (normalizeJob_fields (rand i) (arbeitnow_view raw) "Arbeitnow")
    as (? & _ & ? & ? & ? & _).
  split_and!; try done.
  - unfold normalizeJob, arbeitnow_view. cbn [location r_candidate_required_location r_location].
    apply or_else_same.
  - unfold normalizeJob, arbeitnow_view.
    cbn [publishedAt r_publication_date r_created_at r_publicationDate].
    by destruct (r_created_at raw) as [[|c s]|].
Qed.

End NormalizeFacts.

(** ** Progress *)
Lemma climbs_snoc lo bound reported v :
  climbs lo bound reported -> (bound <= v)%Z -> (lo <= v)%Z ->
  climbs lo v (reported ++ [v]).
Proof.
  intros [Hsorted Hall] Hb Hlo. split.
  - induction Hsorted as [|p l Hl IH Hp]; [repeat constructor|].
    apply Forall_cons in Hall as [Hpb Hall]. cbn. constructor; [by apply IH|].
    apply Forall_app. split; [done|]. constructor; [lia|constructor].
  - apply Forall_app. split.
    + eapply Forall_impl; [exact Hall|]. cbn. lia.
    + constructor; [lia|constructor].
Qed.

Lemma climbs_weaken lo bound bound' reported :
  climbs lo bound reported -> (bound <= bound')%Z -> climbs lo bound' reported.
Proof.
  intros [Hsorted Hall] Hb. split; [done|].
  eapply Forall_impl; [exact Hall|]. cbn. lia.
Qed.

Section PartProgressFacts.
Context `{JsRuntime}.
Import Part000.

Lemma reported_pushEvent now ev s :
  omap event_progress (events (pushEvent now ev s))
  = omap event_progress (events s)
    ++ match ev with
       | EvProgress p _ => [p]
       | EvDone p _ _ => [p]
       | _ => []
       end.
Proof. unfold pushEvent. cbn [events set_events]. rewrite omap_app. by destruct ev. Qed.

Ltac part_progress_unfold :=
  unfold deliver, enter_source, after_sources, finish_advanced, finalize.

Lemma part_start_progress new_id now req : part_progress_inv (start_session new_id now req).
Proof.
  unfold part_progress_inv. cbn.
  split; [split; repeat constructor; vm_compute; discriminate|split; [lia|reflexivity]].
Qed.

Ltac climb known :=
  lazymatch goal with
  | |- climbs _ _ (?l ++ [?a; ?b; ?c]) =>
      change (l ++ [a; b; c]) with (l ++ [a] ++ [b] ++ [c]); rewrite !app_assoc; climb known
  | |- climbs _ _ (?l ++ [?a; ?b]) =>
      change (l ++ [a; b]) with (l ++ [a] ++ [b]); rewrite !app_assoc; climb known
  | |- climbs _ _ (_ ++ [_]) =>
      eapply climbs_snoc;
        [climb known
        |try rewrite known; vm_compute; discriminate
        |vm_compute; discriminate]
  | |- climbs _ _ _ => eassumption
  end.

Lemma part_deliver_progress now ev st :
  part_progress_inv st ->
  part_progress_inv (deliver now ev st) /\
  (progress st.2 <= progress (deliver now ev st).2)%Z.
Proof.
  destruct st as [t s]. unfold part_progress_inv at 1. cbn [fst snd].
  intros [Hclimb Hpc].
  destruct ev as [[found|msg]|reply], (pc t) as [i| |] eqn:Hpt;
    try (unfold part_progress_inv, deliver; rewrite Hpt; cbn [fst snd]; rewrite ?Hpt;
         split; [done|lia]).
  1,2: destruct Hpc as [Hi Hprog]; destruct i as [|[|i]]; [| |lia].
  all: unfold part_progress_inv, deliver, enter_source, after_sources, finish_advanced,
         finalize; rewrite Hpt; cbn;
    repeat match goal with
    | |- context [if advancedMode ?x then _ else _] => destruct (advancedMode x) eqn:?
    | |- context [if decide ?P then _ else _] => destruct (decide P)
    end; cbn; rewrite ?omap_app; cbn; rewrite ?app_nil_r.
  all: (split; [|first [rewrite Hprog|rewrite Hpc]; vm_compute; discriminate]).
  all: (split; [|first [reflexivity|split; [lia|reflexivity]]]).
  all: first [climb Hprog|climb Hpc].
Qed.

Lemma part_run_events_progress evs st :
  part_progress_inv st -> part_progress_inv (run_events evs st).
Proof.
  revert st; induction evs as [|[now ev] evs IH]; intros st Hst; [done|].
  apply IH, part_deliver_progress, Hst.
Qed.

(** X7.  In [part_000] the progress that the events of a session report
    never decreases, is never below 5 and stays at or below the progress of
    the session, which no turn lowers, which never exceeds 100 and
    which is 100 once the session is completed. *)
Theorem part_progress_never_decreases new_id now req evs now' ev :
  let st := run_events evs (start_session new_id now req) in
  let reported := omap event_progress (events st.2) in
  StronglySorted Z.le reported /\
  Forall (fun p => (5 <= p <= progress st.2)%Z) reported /\
  (progress st.2 <= 100)%Z /\
  (progress st.2 <= progress (deliver now' ev st).2)%Z /\
  (status st.2 = completed -> progress st.2 = 100%Z).
Proof.
  intros st reported.
  assert (part_progress_inv st) as Hinv
    by apply part_run_events_progress, part_start_progress.
  destruct (part_deliver_progress now' ev st Hinv) as [_ Hstep].
  destruct Hinv as [[Hsorted Hall] Hpc].
  split_and!; try done.
  - destruct (pc st.1) as [i| |]; [destruct Hpc as [Hi ->]|rewrite Hpc|rewrite Hpc];
      [destruct i as [|[|i]]; [| |lia]|..]; vm_compute; discriminate.
  - intros Hdone.
    assert (part_run_inv st) as Hrun by apply part_run_events_inv, part_start_inv.
    apply (part_inv_completed st Hrun) in Hdone. by rewrite Hdone in Hpc.
Qed.

(** X8.  A completed session of [part_000] is final: no later answer of a
    source or of the LLM changes it. *)
Theorem part_completed_is_final new_id now req evs later :
  let st := run_events evs (start_session new_id now req) in
  status st.2 = completed -> run_events later st = st.
Proof.
  intros st Hdone.
  assert (part_run_inv st) as Hrun by apply part_run_events_inv, part_start_inv.
  apply (part_inv_completed st Hrun) in Hdone. clearbody st. clear Hrun.
  destruct st as [t s]. cbn [fst] in Hdone.
  induction later as [|[now0 ev] later IH]; [done|].
  cbn [run_events fold_left fst snd]. rewrite (part_deliver_finished now0 ev t s Hdone).
  exact IH.
Qed.

(** X9.  A stream of [part_000] is written the events of its session in
    order, each once: what was sent is always the first [eventIndex]
    events of the list, and all of them right after a poll. *)
Theorem part_stream_sends_a_prefix new_id now req before after :
  let st := run_events before (start_session new_id now req) in
  let opened := pushPendingEvents st.2 (mkStream 0 [] false true) in
  let fin := observe_all after (st, opened) in
  sent opened = events st.2 /\
  sent fin.2 = take (eventIndex fin.2) (events fin.1.2) /\
  sent fin.2 `prefix_of` events fin.1.2 /\
  (timer fin.2 = true -> sent (observe Tick fin).2 = events fin.1.2).
Proof.
  intros st opened fin.
  assert (part_run_inv st) as Hrun by apply part_run_events_inv, part_start_inv.
  clearbody st. destruct st as [t s]. cbn [snd] in opened |- *.
  assert (part_stream_inv fin) as (_ & Hsent & Hidx & _)
    by apply part_observe_all_inv, part_open_stream_inv, Hrun.
  split_and!.
  - subst opened. apply pushPendingEvents_sent; [done|cbn; lia].
  - done.
  - rewrite Hsent. apply prefix_take.
  - intros Htimer. destruct fin as [[t' s'] o]. cbn [fst snd] in *.
    cbn [observe]. rewrite Htimer. cbn [snd].
    by apply pushPendingEvents_sent.
Qed.

End PartProgressFacts.

(** The final state, for a session that has completed. *)
Lemma part_completed_is_final_witness :
  let st :=
    Part000.run_events (H := ascii_runtime) (part_crawl_schedule demo_clock sixty_results)
      (Part000.start_session (H := ascii_runtime) "s-1" "t0"
         (Part000.mkStartBody None None)) in
  Part000.run_events (H := ascii_runtime)
    [ ("t9", Part000.SourceSettled (Returned sixty_jobs));
      ("t9", Part000.LlmSettled (Part000.LlmThrew "late")) ] st
  = st.
Proof.
  apply (@part_completed_is_final ascii_runtime). vm_compute. reflexivity.
Defined.


(** ** [server.js]: what holds at every suspension point *)
Section ServerInvFacts.
Context `{JsRuntime}.
Import ServerJs.

Lemma addLog_length now msg r :
  length (logs r) < 150 -> length (logs (addLog now msg r)) = S (length (logs r)).
Proof. intros Hl. rewrite addLog_short by done. rewrite length_app. cbn. lia. Qed.

Lemma status_addLog now msg r : status (addLog now msg r) = status r.
Proof. done. Qed.
Lemma progress_addLog now msg r : progress (addLog now msg r) = progress r.
Proof. done. Qed.
Lemma jobs_addLog now msg r : jobs (addLog now msg r) = jobs r.
Proof. done. Qed.

(** [addLog] is kept folded while the other updates are computed. *)
Ltac run_fields :=
  repeat first
    [ rewrite status_addLog | rewrite progress_addLog | rewrite jobs_addLog
    | progress cbn [status progress jobs logs pushUpdate set_clients set_status set_progress
                    set_stage set_jobs set_logs fst snd pc caller allJobs token] ].

Ltac log_count :=
  repeat (rewrite addLog_length;
          cbn [logs pushUpdate set_clients set_status set_progress set_stage set_jobs];
          [|solve [repeat (rewrite addLog_length;
                     cbn [logs pushUpdate set_clients set_status set_progress set_stage
                          set_jobs]; [|lia]); lia]]).

Lemma complete_inv now t r : length (logs r) <= 7 -> server_run_inv (complete now t r).
Proof.
  intros Hl. unfold server_run_inv. cbn [fst snd pc complete]. left.
  split_and!; [reflexivity|reflexivity|exact Hl].
Qed.

Lemma after_crawl_inv now t r :
  status r = running -> length (logs r) <= 6 -> server_run_inv (after_crawl now t r).
Proof.
  intros Hst Hl. unfold after_crawl. destruct (take 15 _).
  - apply complete_inv. rewrite addLog_length; [exact (le_n_S _ _ Hl)|].
    change (length (logs r) < 150). lia.
  - unfold server_run_inv. cbn [fst snd pc]. split_and!; [exact Hst|reflexivity|exact Hl].
Qed.

Lemma finish_crawl_inv now t r :
  status r = running -> length (logs r) <= 6 -> server_run_inv (finish_crawl now t r).
Proof.
  intros Hst Hl. unfold finish_crawl. destruct (caller t).
  - apply complete_inv. change (length (logs r) <= 7). lia.
  - apply after_crawl_inv; [exact Hst|exact Hl].
Qed.

Lemma enter_source_inv now i t r :
  i <= 2 -> status r = running -> length (logs r) <= 2 + 2 * i ->
  server_run_inv (enter_source now i t r).
Proof.
  intros Hi Hst Hl. unfold enter_source.
  destruct i as [|[|[|i]]]; [| | |lia]; cbn [lookup list_lookup sources].
  - unfold server_run_inv. cbn [fst snd pc]. split_and!; [lia|exact Hst|reflexivity|].
    rewrite addLog_length.
    + change (S (length (logs r)) <= 3 + 2 * 0). lia.
    + change (length (logs r) < 150). lia.
  - unfold server_run_inv. cbn [fst snd pc]. split_and!; [lia|exact Hst|reflexivity|].
    rewrite addLog_length.
    + change (S (length (logs r)) <= 3 + 2 * 1). lia.
    + change (length (logs r) < 150). lia.
  - apply finish_crawl_inv; [exact Hst|lia].
Qed.

Lemma enter_stage_inv now i t r :
  i <= 4 -> status r = running -> length (logs r) = 2 ->
  server_run_inv (enter_stage now i t r).
Proof.
  intros Hi Hst Hl. unfold enter_stage.
  destruct i as [|[|[|[|[|i]]]]]; [| | | | |lia]; cbn [lookup list_lookup graphStages].
  1-4: unfold server_run_inv; cbn [fst snd pc]; split_and!; [lia|exact Hst|reflexivity|exact Hl].
  apply enter_source_inv; [lia|exact Hst|lia].
Qed.

Lemma server_launch_inv new_id now m tok : server_run_inv (server_launch new_id now m tok).
Proof.
  unfold server_launch, startRun. repeat case_decide.
  - unfold server_run_inv, fail_run. cbn [fst snd pc]. right. split_and!; reflexivity.
  - apply enter_stage_inv; [lia|reflexivity|reflexivity].
  - apply enter_source_inv; [lia|reflexivity|cbn; lia].
Qed.

Lemma server_deliver_inv now ev st : server_run_inv st -> server_run_inv (deliver now ev st).
Proof.
  destruct st as [t r]. unfold server_run_inv at 1. cbn [fst snd].
  destruct ev as [|[found|msg]|[msg|ins]|c|c], (pc t) as [i|i| |] eqn:Hpt; intros Hst;
    try (unfold server_run_inv, deliver; rewrite Hpt; cbn [fst snd];
         rewrite ?Hpt; exact Hst);
    try (unfold server_run_inv, deliver, attach, detach; cbn [fst snd]; rewrite Hpt;
         exact Hst).
  - destruct Hst as (Hi & Hst & Hprog & Hlogs).
    unfold deliver. rewrite Hpt. apply enter_stage_inv; [lia|exact Hst|exact Hlogs].
  - destruct Hst as (Hi & Hst & Hprog & Hlogs).
    unfold deliver. rewrite Hpt. apply enter_source_inv; [lia|exact Hst|].
    rewrite addLog_length by lia. lia.
  - destruct Hst as (Hi & Hst & Hprog & Hlogs).
    unfold deliver. rewrite Hpt. apply enter_source_inv; [lia|exact Hst|].
    rewrite addLog_length by lia. lia.
  - destruct Hst as (Hst & Hprog & Hlogs).
    unfold deliver. rewrite Hpt. apply complete_inv.
    rewrite addLog_length by lia. lia.
  - destruct Hst as (Hst & Hprog & Hlogs).
    unfold deliver. rewrite Hpt. apply complete_inv.
    rewrite addLog_length.
    + change (S (length (logs r)) <= 7). lia.
    + change (length (logs r) < 150). lia.
Qed.

Lemma server_run_events_inv evs st : server_run_inv st -> server_run_inv (run_events evs st).
Proof.
  revert st; induction evs as [|[now ev] evs IH]; intros st Hst; [done|].
  apply IH, server_deliver_inv, Hst.
Qed.

(** Once a run of [server.js] is finished, no timer, source or LLM
    answer changes it. *)
Lemma server_deliver_finished now ev t r :
  pc t = Finished ->
  match ev with
  | ClientAttached _ | ClientClosed _ => True
  | _ => deliver now ev (t, r) = (t, r)
  end.
Proof. intros Hpt. destruct ev as [|[?|?]|[?|?]|c|c]; try done; unfold deliver; by rewrite Hpt. Qed.

(** X10.  Every state a run of [server.js] goes through: progress stays
    within 0 and 100, is 100 when the run is completed and 0 when it
    failed; the log never holds more than 7 lines, so [addLog] never
    drops one during a run; and a run that is completed or failed is
    final for timers, sources and the LLM. *)
Theorem server_run_states new_id now m tok evs now' :
  let st := run_events evs (server_launch new_id now m tok) in
  (0 <= progress st.2 <= 100)%Z /\
  length (logs st.2) <= 7 /\
  (status st.2 = completed -> progress st.2 = 100%Z) /\
  (status st.2 = failed -> progress st.2 = 0%Z /\ length (logs st.2) = 2) /\
  (status st.2 <> running ->
     deliver now' TimerFired st = st /\
     (forall result, deliver now' (SourceSettled result) st = st) /\
     (forall reply, deliver now' (LlmSettled reply) st = st)).
Proof.
  intros st.
  assert (server_run_inv st) as Hinv by apply server_run_events_inv, server_launch_inv.
  clearbody st. destruct st as [t r]. unfold server_run_inv in Hinv. cbn [fst snd] in *.
  destruct (pc t) as [i|i| |] eqn:Hpt.
  - destruct Hinv as (Hi & Hst & Hprog & Hl). rewrite Hst, Hprog, Hl.
    split_and!; try done; lia.
  - destruct Hinv as (Hi & Hst & Hprog & Hl). rewrite Hst, Hprog.
    split_and!; try done; lia.
  - destruct Hinv as (Hst & Hprog & Hl). rewrite Hst, Hprog.
    split_and!; try done; lia.
  - assert (deliver now' TimerFired (t, r) = (t, r) /\
            (forall result, deliver now' (SourceSettled result) (t, r) = (t, r)) /\
            (forall reply, deliver now' (LlmSettled reply) (t, r) = (t, r))) as Hfinal.
    { split_and!; [|intros result|intros reply].
      - apply (server_deliver_finished now' TimerFired t r Hpt).
      - apply (server_deliver_finished now' (SourceSettled result) t r Hpt).
      - apply (server_deliver_finished now' (LlmSettled reply) t r Hpt). }
    destruct Hinv as [(Hst & Hprog & Hl)|(Hst & Hprog & Hl)]; rewrite Hst, Hprog;
      split_and!; try done; lia.
Qed.

End ServerInvFacts.

Section ServerSeenFacts.
Context `{JsRuntime}.
Import ServerJs.

Lemma pushUpdate_seen now r :
  (0 <= progress r)%Z -> server_seen_below r -> server_seen_below (pushUpdate now r).
Proof.
  intros Hp Hseen. unfold server_seen_below, pushUpdate in *.
  change (clients (set_clients ?cs _)) with cs.
  change (progress (set_clients _ ?x)) with (progress x).
  apply Forall_fmap. eapply Forall_impl; [exact Hseen|].
  intros k Hk. cbn. rewrite fmap_app. cbn.
  apply (climbs_snoc 0 (progress r)); [exact Hk|lia|exact Hp].
Qed.

Lemma set_progress_seen p r :
  (progress r <= p)%Z -> server_seen_below r -> server_seen_below (set_progress p r).
Proof.
  intros Hp Hseen. unfold server_seen_below in *.
  change (clients (set_progress _ ?x)) with (clients x).
  change (progress (set_progress ?v _)) with v.
  eapply Forall_impl; [exact Hseen|]. intros k Hk. cbn in *.
  by eapply climbs_weaken.
Qed.

Lemma addLog_seen now msg r :
  (0 <= progress r)%Z -> server_seen_below r -> server_seen_below (addLog now msg r).
Proof. intros Hp Hseen. unfold addLog. by apply pushUpdate_seen. Qed.

Lemma attach_seen now c r :
  (0 <= progress r)%Z -> server_seen_below r -> server_seen_below (attach now c r).
Proof.
  intros Hp Hseen. unfold attach. apply pushUpdate_seen; [done|].
  unfold server_seen_below in *.
  change (clients (set_clients ?cs _)) with cs.
  change (progress (set_clients _ ?x)) with (progress x).
  destruct (existsb _ _); [done|].
  apply Forall_app. split; [done|]. constructor; [|constructor].
  split; constructor.
Qed.

Lemma detach_seen c r : server_seen_below r -> server_seen_below (detach c r).
Proof.
  intros Hseen. unfold detach, server_seen_below in *.
  change (clients (set_clients ?cs _)) with cs.
  change (progress (set_clients _ ?x)) with (progress x).
  apply Forall_forall. intros k [_ Hk]%list_elem_of_filter.
  by eapply Forall_forall in Hseen.
Qed.

Lemma complete_std now t r :
  caller t = FromStartRun -> (0 <= progress r <= 100)%Z -> server_seen_below r ->
  server_standard_inv (complete now t r).
Proof.
  intros Hc Hp Hseen. unfold server_standard_inv, complete. cbn [fst snd pc caller].
  split_and!; [done|done|done|].
  apply pushUpdate_seen; [done|].
  apply (set_progress_seen 100 (set_stage "Completed" r)); [apply Hp|exact Hseen].
Qed.

Lemma finish_crawl_std now t r :
  caller t = FromStartRun -> (0 <= progress r <= 90)%Z -> server_seen_below r ->
  server_standard_inv (finish_crawl now t r).
Proof.
  intros Hc Hp Hseen. unfold finish_crawl. rewrite Hc.
  apply complete_std; [done|done|].
  apply pushUpdate_seen; [done|].
  apply (set_progress_seen 90 (set_stage "Deduplicating and ranking results" r));
    [apply Hp|exact Hseen].
Qed.

Lemma enter_source_std now i t r :
  caller t = FromStartRun -> (0 <= progress r)%Z ->
  (progress r <= 40 * Z.of_nat i)%Z -> i <= 2 ->
  server_seen_below r ->
  server_standard_inv (enter_source now i t r).
Proof.
  intros Hc Hp0 Hp Hi Hseen.
  destruct i as [|[|[|i]]]; [| | |lia].
  - unfold enter_source. cbn [sources lookup list_lookup].
    unfold server_standard_inv. cbn [fst snd pc caller].
    split_and!; [done|done|done|].
    apply addLog_seen; [done|]. apply pushUpdate_seen; [done|].
    apply (set_progress_seen 0 (set_stage _ r)); [exact Hp|exact Hseen].
  - unfold enter_source. cbn [sources lookup list_lookup].
    unfold server_standard_inv. cbn [fst snd pc caller].
    split_and!; [done|done|done|].
    apply addLog_seen; [done|]. apply pushUpdate_seen; [done|].
    apply (set_progress_seen 40 (set_stage _ r)); [exact Hp|exact Hseen].
  - change (enter_source now 2 t r) with (finish_crawl now t r).
    apply finish_crawl_std; [done|lia|done].
Qed.

Lemma server_launch_std new_id now m tok :
  m <> "advanced" -> server_standard_inv (server_launch new_id now m tok).
Proof.
  intros Hm. unfold server_launch. rewrite startRun_standard by done.
  apply enter_source_std.
  - done.
  - by rewrite progress_addLog.
  - by rewrite progress_addLog.
  - lia.
  - apply addLog_seen; [done|]. constructor.
Qed.

Lemma server_deliver_std now ev st :
  server_run_inv st -> server_standard_inv st ->
  server_standard_inv (deliver now ev st).
Proof.
  destruct st as [t r]. unfold server_run_inv, server_standard_inv at 1.
  cbn [fst snd]. intros Hinv (Hc & Hpc & Hp0 & Hseen).
  destruct ev as [|[found|msg]|[msg|insights]|c|c].
  - unfold deliver. destruct (pc t) eqn:Hpt; try done.
    all: unfold server_standard_inv; cbn [fst snd]; by rewrite Hpt.
  - unfold deliver. destruct (pc t) as [i|i| |] eqn:Hpt; try done.
    + destruct Hinv as (Hi & _ & Hprog & _).
      apply enter_source_std; [done| | |lia|].
      * by rewrite progress_addLog.
      * rewrite progress_addLog. lia.
      * by apply addLog_seen.
    + unfold server_standard_inv. cbn [fst snd]. by rewrite Hpt.
  - unfold deliver. destruct (pc t) as [i|i| |] eqn:Hpt; try done.
    + destruct Hinv as (Hi & _ & Hprog & _).
      apply enter_source_std; [done| | |lia|].
      * by rewrite progress_addLog.
      * rewrite progress_addLog. lia.
      * by apply addLog_seen.
    + unfold server_standard_inv. cbn [fst snd]. by rewrite Hpt.
  - unfold deliver. destruct (pc t) eqn:Hpt; try done.
    all: unfold server_standard_inv; cbn [fst snd]; by rewrite Hpt.
  - unfold deliver. destruct (pc t) eqn:Hpt; try done.
    all: unfold server_standard_inv; cbn [fst snd]; by rewrite Hpt.
  - assert (deliver now (ClientAttached c) (t, r) = (t, attach now c r)) as ->.
    { unfold deliver. by destruct (pc t). }
    unfold server_standard_inv. cbn [fst snd].
    split_and!; [done|done| |by apply attach_seen]. done.
  - assert (deliver now (ClientClosed c) (t, r) = (t, detach c r)) as ->.
    { unfold deliver. by destruct (pc t). }
    unfold server_standard_inv. cbn [fst snd].
    split_and!; [done|done|done|by apply detach_seen].
Qed.

Lemma server_run_events_std evs st :
  server_run_inv st -> server_standard_inv st ->
  server_run_inv (run_events evs st) /\ server_standard_inv (run_events evs st).
Proof.
  revert st. induction evs as [|[now ev] evs IH]; intros st Hinv Hstd; [done|].
  apply IH; [by apply server_deliver_inv|by apply server_deliver_std].
Qed.

(** X11.  In standard mode every client of [GET /api/crawl/events/:runId]
    is written a progress that never decreases and never exceeds the
    progress of the run, whenever it attaches and whatever the sources
    answer. *)
Theorem server_standard_progress_never_decreases new_id now m tok evs :
  m <> "advanced" ->
  let st := run_events evs (server_launch new_id now m tok) in
  Forall
    (fun k =>
       StronglySorted Z.le (p_progress <$> written k) /\
       Forall (fun p => (0 <= p_progress p <= progress st.2)%Z) (written k))
    (clients st.2).
Proof.
  intros Hm st.
  destruct (server_run_events_std evs (server_launch new_id now m tok)) as [_ Hstd];
    [apply server_launch_inv|by apply server_launch_std|].
  fold st in Hstd. destruct Hstd as (_ & _ & _ & Hseen).
  eapply Forall_impl; [exact Hseen|]. intros k [Hsorted Hall]. split; [done|].
  by apply Forall_fmap in Hall.
Qed.

End ServerSeenFacts.

Lemma server_standard_progress_witness :
  "standard" <> "advanced" /\
  Forall
    (fun k =>
       StronglySorted Z.le (ServerJs.p_progress <$> ServerJs.written k) /\
       Forall (fun p => (0 <= ServerJs.p_progress p <= ServerJs.progress watched_standard_run.2)%Z)
         (ServerJs.written k))
    (ServerJs.clients watched_standard_run.2).
Proof.
  split; [discriminate|].
  apply (@server_standard_progress_never_decreases ascii_runtime "run-1" "t0" "standard" ""
           [ (demo_clock 1, ServerJs.ClientAttached 7);
             (demo_clock 2, ServerJs.SourceSettled (three_results 0));
             (demo_clock 3, ServerJs.SourceSettled (three_results 1)) ]).
  discriminate.
Defined.

Section ServerObserverFacts.
Context `{JsRuntime}.
Import ServerJs.

Lemma unobserved_jobs r r' : unobserved r = unobserved r' -> jobs r = jobs r'.
Proof. intros E. change (jobs (unobserved r) = jobs (unobserved r')). by rewrite E. Qed.

Lemma addLog_unobserved now msg r r' :
  unobserved r = unobserved r' ->
  unobserved (addLog now msg r) = unobserved (addLog now msg r').
Proof.
  intros E. transitivity (unobserved (addLog now msg (unobserved r))); [reflexivity|].
  rewrite E. reflexivity.
Qed.

Lemma complete_core now t r r' :
  unobserved r = unobserved r' ->
  server_core (complete now t r) = server_core (complete now t r').
Proof.
  intros E. transitivity (server_core (complete now t (unobserved r))); [reflexivity|].
  rewrite E. reflexivity.
Qed.

Lemma after_crawl_core now t r r' :
  unobserved r = unobserved r' ->
  server_core (after_crawl now t r) = server_core (after_crawl now t r').
Proof.
  intros E. unfold after_crawl.
  change (jobs (pushUpdate now (set_progress 95 (set_stage "Advanced pipeline: LLM synthesis" r))))
    with (jobs r).
  change (jobs (pushUpdate now (set_progress 95 (set_stage "Advanced pipeline: LLM synthesis" r'))))
    with (jobs r').
  rewrite (unobserved_jobs r r' E).
  assert (unobserved (pushUpdate now (set_progress 95 (set_stage "Advanced pipeline: LLM synthesis" r)))
          = unobserved (pushUpdate now (set_progress 95 (set_stage "Advanced pipeline: LLM synthesis" r'))))
    as E1.
  { transitivity
      (unobserved (pushUpdate now (set_progress 95
         (set_stage "Advanced pipeline: LLM synthesis" (unobserved r))))); [reflexivity|].
    rewrite E. reflexivity. }
  destruct (take 15 (jobs r')).
  - by apply complete_core, addLog_unobserved.
  - unfold server_core. cbn [fst snd]. by rewrite E1.
Qed.

Lemma finish_crawl_core now t r r' :
  unobserved r = unobserved r' ->
  server_core (finish_crawl now t r) = server_core (finish_crawl now t r').
Proof.
  intros E. unfold finish_crawl.
  assert (forall found,
    unobserved (pushUpdate now (set_jobs found
       (set_progress 90 (set_stage "Deduplicating and ranking results" r))))
    = unobserved (pushUpdate now (set_jobs found
       (set_progress 90 (set_stage "Deduplicating and ranking results" r'))))) as E1.
  { intros found. transitivity
      (unobserved (pushUpdate now (set_jobs found
         (set_progress 90 (set_stage "Deduplicating and ranking results" (unobserved r))))));
      [reflexivity|].
    rewrite E. reflexivity. }
  destruct (caller t); [by apply complete_core|by apply after_crawl_core].
Qed.

Lemma enter_source_core now i t r r' :
  unobserved r = unobserved r' ->
  server_core (enter_source now i t r) = server_core (enter_source now i t r').
Proof.
  intros E. unfold enter_source. destruct (sources !! i) as [src|].
  - unfold server_core. cbn [fst snd]. f_equal.
    apply addLog_unobserved.
    transitivity
      (unobserved (pushUpdate now (set_progress (band_progress i (length sources) 80)
         (set_stage ("Crawling " +:+ label src) (unobserved r))))); [reflexivity|].
    rewrite E. reflexivity.
  - by apply finish_crawl_core.
Qed.

Lemma enter_stage_core now i t r r' :
  unobserved r = unobserved r' ->
  server_core (enter_stage now i t r) = server_core (enter_stage now i t r').
Proof.
  intros E. unfold enter_stage. destruct (graphStages !! i) as [name|].
  - unfold server_core. cbn [fst snd]. f_equal.
    transitivity
      (unobserved (pushUpdate now (set_progress (band_progress i (length graphStages) 40)
         (set_stage ("Advanced pipeline: " +:+ name) (unobserved r))))); [reflexivity|].
    rewrite E. reflexivity.
  - by apply enter_source_core.
Qed.

Lemma deliver_core now ev t r r' :
  is_observer ev = false ->
  unobserved r = unobserved r' ->
  server_core (deliver now ev (t, r)) = server_core (deliver now ev (t, r')).
Proof.
  intros Hev E.
  assert (server_core (t, r) = server_core (t, r')) as Esame.
  { unfold server_core. cbn [fst snd]. by rewrite E. }
  destruct ev as [|[found|msg]|[msg|insights]|c|c]; try done;
    unfold deliver; destruct (pc t) as [i|i| |]; try exact Esame.
  - by apply enter_stage_core.
  - by apply enter_source_core, addLog_unobserved.
  - by apply enter_source_core, addLog_unobserved.
  - by apply complete_core, addLog_unobserved.
  - apply complete_core, addLog_unobserved.
    rewrite (unobserved_jobs r r' E).
    transitivity (unobserved (set_jobs
      (js_sort by_fit_desc (map (annotate (insightMap insights)) (jobs r'))) (unobserved r)));
      [reflexivity|].
    rewrite E. reflexivity.
Qed.

Lemma deliver_observer now ev t r :
  is_observer ev = true ->
  server_core (deliver now ev (t, r)) = server_core (t, r).
Proof.
  intros Hev. by destruct ev.
Qed.

Lemma run_events_core evs st st' :
  server_core st = server_core st' ->
  server_core (run_events evs st) = server_core (run_events (run_only evs) st').
Proof.
  revert st st'. induction evs as [|[now ev] evs IH]; intros [t r] [t' r'] E; [done|].
  assert (t = t') as Et
    by (change ((server_core (t, r)).1 = (server_core (t', r')).1); by rewrite E).
  assert (unobserved r = unobserved r') as Er
    by (change ((server_core (t, r)).2 = (server_core (t', r')).2); by rewrite E).
  clear E. subst t'.
  unfold run_only. rewrite filter_cons. cbn [snd].
  destruct (is_observer ev) eqn:Hev.
  - rewrite decide_False by done. apply IH.
    change (server_core (deliver now ev (t, r)) = server_core (t, r')).
    rewrite deliver_observer by done. unfold server_core. cbn [fst snd]. by rewrite Er.
  - rewrite decide_True by done. apply IH. by apply deliver_core.
Qed.

(** X12.  Watching does not change a run of [server.js]: whoever attaches to
    or leaves the event stream, and whenever, the task and every field
    of the run but its client set are what they are in the same run
    with no client at all. *)
Theorem server_watching_leaves_the_run_alone evs st :
  server_core (run_events evs st) = server_core (run_events (run_only evs) (server_core st)).
Proof. apply run_events_core. destruct st as [t r]. reflexivity. Qed.

End ServerObserverFacts.

Section ServerPollFacts.
Context `{JsRuntime}.
Import ServerJs.

Lemma after_crawl_identity now t r :
  server_identity (after_crawl now t r).2 = server_identity r.
Proof. unfold after_crawl. by destruct (take 15 _). Qed.

Lemma finish_crawl_identity now t r :
  server_identity (finish_crawl now t r).2 = server_identity r.
Proof.
  unfold finish_crawl. destruct (caller t); [reflexivity|].
  by rewrite after_crawl_identity.
Qed.

Lemma enter_source_identity now i t r :
  server_identity (enter_source now i t r).2 = server_identity r.
Proof.
  unfold enter_source. destruct (sources !! i); [reflexivity|].
  apply finish_crawl_identity.
Qed.

Lemma enter_stage_identity now i t r :
  server_identity (enter_stage now i t r).2 = server_identity r.
Proof.
  unfold enter_stage. destruct (graphStages !! i); [reflexivity|].
  apply enter_source_identity.
Qed.

Lemma server_launch_identity new_id now m tok :
  server_identity (server_launch new_id now m tok).2 = (new_id, m, now).
Proof.
  unfold server_launch, startRun.
  destruct (decide _); [destruct (decide _)|].
  - reflexivity.
  - by rewrite enter_stage_identity.
  - by rewrite enter_source_identity.
Qed.

Lemma server_deliver_identity now ev st :
  server_identity (deliver now ev st).2 = server_identity st.2.
Proof.
  destruct st as [t r].
  destruct ev as [|[found|msg]|[msg|insights]|c|c]; try reflexivity;
    unfold deliver; destruct (pc t); try reflexivity.
  - by rewrite enter_stage_identity.
  - by rewrite enter_source_identity.
  - by rewrite enter_source_identity.
Qed.

Lemma server_run_events_identity evs st :
  server_identity (run_events evs st).2 = server_identity st.2.
Proof.
  revert st. induction evs as [|[now ev] evs IH]; intros st; [done|].
  cbn. change (fold_left _ evs ?s) with (run_events evs s).
  by rewrite IH, server_deliver_identity.
Qed.

(** X13.  Polling [GET /api/crawl/:runId] at any moment of a run answers
    with the identifier and the mode the run was created with and the
    run's current status, progress, stage, jobs and log; every other
    identifier is answered as if the run did not exist. *)
Theorem server_poll_during_run new_id now m tok evs crawlRuns :
  let st := run_events evs (server_launch new_id now m tok) in
  let stored := <[new_id := st.2]> crawlRuns in
  get_run new_id stored
    = inr (mkRunView new_id m (status st.2) (progress st.2) (stage st.2) (jobs st.2) (logs st.2))
  /\ (forall other, other <> new_id -> get_run other stored = get_run other crawlRuns)
  /\ (forall other, crawlRuns !! other = None -> other <> new_id ->
        get_run other stored = inl (ReplyError 404 "Run not found")).
Proof.
  intros st stored.
  assert (server_identity st.2 = (new_id, m, now)) as Hid.
  { unfold st. by rewrite server_run_events_identity, server_launch_identity. }
  unfold server_identity in Hid. injection Hid as Hid Hmode _.
  split_and!.
  - unfold get_run, stored. rewrite lookup_insert_eq. by rewrite Hid, Hmode.
  - intros other Hne. unfold get_run, stored. by rewrite lookup_insert_ne.
  - intros other Hnone Hne. unfold get_run, stored.
    rewrite lookup_insert_ne by done. by rewrite Hnone.
Qed.

End ServerPollFacts.

Section PartPollFacts.
Context `{JsRuntime}.
Import Part000.

Lemma finalize_kept now finalJobs t s :
  part_identity (finalize now finalJobs t s).2 = part_identity s /\
  part_finishedAt_inv (finalize now finalJobs t s).
Proof. split; [reflexivity|]. unfold part_finishedAt_inv. cbn. by eexists. Qed.

Lemma finish_advanced_kept now result t s :
  part_identity (finish_advanced now result t s).2 = part_identity s /\
  part_finishedAt_inv (finish_advanced now result t s).
Proof.
  unfold finish_advanced. split; [|apply finalize_kept].
  etransitivity; [apply finalize_kept|reflexivity].
Qed.

Lemma after_sources_kept now t s :
  finishedAt s = None ->
  part_identity (after_sources now t s).2 = part_identity s /\
  part_finishedAt_inv (after_sources now t s).
Proof.
  intros Hf. unfold after_sources.
  change (advancedMode (pushEvent now _ (set_progress 75 (set_stage "Filtering ML jobs" s))))
    with (advancedMode s).
  destruct (advancedMode s) eqn:Hadv.
  - destruct (decide (llmToken t = "")).
    + split; [|apply finish_advanced_kept].
      etransitivity; [apply finish_advanced_kept|]. unfold part_identity. cbn. by rewrite Hadv.
    + split; [unfold part_identity; cbn; by rewrite Hadv|].
      unfold part_finishedAt_inv. cbn. exact Hf.
  - split; [|apply finalize_kept].
    etransitivity; [apply finalize_kept|]. unfold part_identity. cbn. by rewrite Hadv.
Qed.

Lemma enter_source_kept now i t s :
  finishedAt s = None ->
  part_identity (enter_source now i t s).2 = part_identity s /\
  part_finishedAt_inv (enter_source now i t s).
Proof.
  intros Hf. unfold enter_source. destruct (source_names !! i).
  - split; [reflexivity|]. unfold part_finishedAt_inv. cbn. exact Hf.
  - by apply after_sources_kept.
Qed.

Lemma part_start_kept new_id now req :
  part_identity (start_session new_id now req).2
    = (new_id, default false (b_advancedMode req), now, None) /\
  part_finishedAt_inv (start_session new_id now req).
Proof.
  unfold start_session, runCrawl.
  split; [etransitivity|]; try apply enter_source_kept; reflexivity.
Qed.

Lemma part_deliver_kept now ev st :
  part_finishedAt_inv st ->
  part_identity (deliver now ev st).2 = part_identity st.2 /\
  part_finishedAt_inv (deliver now ev st).
Proof.
  destruct st as [t s]. unfold part_finishedAt_inv at 1. cbn [fst snd]. intros Hf.
  destruct ev as [[found|msg]|reply]; unfold deliver; destruct (pc t) as [i| |] eqn:Hpt;
    try (split; [reflexivity|unfold part_finishedAt_inv; cbn [fst snd]; by rewrite Hpt]).
  - split; [etransitivity|]; try apply enter_source_kept; try exact Hf; reflexivity.
  - split; [etransitivity|]; try apply enter_source_kept; try exact Hf; reflexivity.
  - apply finish_advanced_kept.
Qed.

Lemma part_run_events_kept evs st :
  part_finishedAt_inv st ->
  part_identity (run_events evs st).2 = part_identity st.2 /\
  part_finishedAt_inv (run_events evs st).
Proof.
  revert st. induction evs as [|[now ev] evs IH]; intros st Hf; [done|].
  destruct (part_deliver_kept now ev st Hf) as [Hid Hf'].
  destruct (IH _ Hf') as [Hid' Hf'']. split; [|exact Hf''].
  cbn. change (fold_left _ evs ?s) with (run_events evs s). by rewrite Hid', Hid.
Qed.

(** X14.  Polling [GET /api/crawl/:id] at any moment of a crawl answers with
    a session that carries the identifier, the advanced flag and the
    start time it was created with and no error; while it is running
    it has no finish time and no job, and once completed it has a
    finish time.  Every other identifier is answered as before. *)
Theorem part_poll_during_run new_id now req evs crawlSessions :
  let st := run_events evs (start_session new_id now req) in
  let stored := <[new_id := st.2]> crawlSessions in
  (exists s,
     get_session new_id stored = inr s /\
     s_id s = new_id /\
     advancedMode s = default false (b_advancedMode req) /\
     startedAt s = now /\
     error s = None /\
     (status s = running -> finishedAt s = None /\ jobs s = []) /\
     (status s = completed -> is_Some (finishedAt s)))
  /\ (forall other, other <> new_id -> get_session other stored = get_session other crawlSessions).
Proof.
  intros st stored.
  destruct (part_run_events_kept evs (start_session new_id now req)) as [Hid Hf];
    [apply part_start_kept|].
  fold st in Hid, Hf.
  destruct (part_start_kept new_id now req) as [Hid0 _]. rewrite Hid0 in Hid.
  assert (part_run_inv st) as Hinv by apply part_run_events_inv, part_start_inv.
  unfold part_identity in Hid. injection Hid as Hi Ha Hs He.
  split.
  - exists st.2. split_and!; try done.
    + unfold get_session, stored. by rewrite lookup_insert_eq.
    + intros Hrun. unfold part_run_inv in Hinv. unfold part_finishedAt_inv in Hf.
      destruct (pc st.1).
      * by destruct Hinv as (_ & _ & Hj).
      * by destruct Hinv as (_ & Hj).
      * destruct Hinv as (Hst & _). congruence.
    + intros Hdone. unfold part_run_inv in Hinv. unfold part_finishedAt_inv in Hf.
      destruct (pc st.1).
      * destruct Hinv as (_ & Hst & _). congruence.
      * destruct Hinv as (Hst & _). congruence.
      * exact Hf.
  - intros other Hne. unfold get_session, stored. by rewrite lookup_insert_ne.
Qed.

End PartPollFacts.

Section RemoteOkFacts.
Context `{JsRuntime}.
Import ServerJs.

(** X15.  [scrapeRemoteOk] never turns the first element of the answer into a
    job, returns at most one job per remaining element, and returns
    exactly the remaining elements whose position and tags contain an
    ML keyword, tagged RemoteOK, with a company, a location and a
    summary that are never empty and no score. *)
Theorem remoteok_skips_first_keeps_matches data :
  let found := remoteok_jobs data in
  (forall other, remoteok_jobs (other :: drop 1 data) = found) /\
  length found <= length data - 1 /\
  Forall
    (fun job =>
       source job = "RemoteOK" /\ company job <> "" /\ location job <> "" /\
       summary job <> "" /\ postedAt job <> Some "" /\ fitScore job = None /\
       exists raw,
         raw ∈ drop 1 data /\ job = remoteok_job raw /\
         containsMLKeyword (remoteok_text raw) = true)
    found /\
  (forall raw,
     raw ∈ drop 1 data -> containsMLKeyword (remoteok_text raw) = true ->
     remoteok_job raw ∈ found).
Proof.
  intros found. subst found. unfold remoteok_jobs. split_and!.
  - intros other. reflexivity.
  - rewrite length_map. etransitivity; [apply List.filter_length_le|]. by rewrite length_drop.
  - apply Forall_forall. intros job Hjob.
    apply list_elem_of_In, in_map_iff in Hjob as (raw & <- & Hraw).
    apply filter_In in Hraw as [Hin Hmatch].
    split_and!.
    + reflexivity.
    + by apply or_default_filled.
    + by apply or_default_filled.
    + by apply or_default_filled.
    + cbn. destruct (ro_date raw) as [[|c s]|]; cbn; congruence.
    + reflexivity.
    + exists raw. split_and!; [by apply list_elem_of_In|done|done].
  - intros raw Hin Hmatch. apply list_elem_of_In, in_map. apply filter_In.
    split; [by apply list_elem_of_In|done].
Qed.

End RemoteOkFacts.
